(** * Runtime derived-type descriptions: initialization and destruction

    A shallow embedding of [runtime/derived-type.h] and
    [runtime/derived-type.cpp]: the static type tables
    ([TypeParameter], [Component], [TypeBoundProcedure], [DerivedType]),
    the constructor that precomputes the FINALIZABLE, INIT_ZERO and
    INIT_COMPONENT flags, and the operations [Initialize],
    [DestroyNonParentComponents] and [DestroyScalarInstance].

    Conventions.
    - Machine integers ([int], [std::uint32_t], [std::uint64_t],
      [std::size_t], [std::intptr_t]) are values of [Z]; the operations used
      here ([&], [|], [>>], comparisons with 0) never leave the range of their
      type, so no wrap-around has to be written out.
    - A pointer to an array together with its element count (a borrowed
      slice) is a [list]; the count is the length of the list.
    - A nullable pointer is an [option].
    - [char *instance] is an address into a byte-addressed [memory].
    - The operations run in a small monad that threads the memory and a trace
      of the primitive actions performed, and that can stop in a fatal
      diagnostic. *)

From Stdlib Require Import ZArith List String Bool Lia.
From Stdlib Require Import Init.Byte.
Import ListNotations.
Local Open Scope list_scope.
Local Open Scope Z_scope.

(* ================================================================== *)
(** ** Memory, actions and the monad of the runtime operations *)

Definition memory : Type := Z -> byte.

(** [std::memcpy(dst, src, n)] where [src] is a static byte image. *)
Definition memcpy_bytes (m : memory) (dst : Z) (src : list byte) (n : Z) : memory :=
  fun a =>
    if (dst <=? a) && (a <? dst + n)
    then nth (Z.to_nat (a - dst)) src x00
    else m a.

(** [std::memset(dst, c, n)]. *)
Definition memset_bytes (m : memory) (dst : Z) (c : byte) (n : Z) : memory :=
  fun a => if (dst <=? a) && (a <? dst + n) then c else m a.

(** The [n] bytes of the buffer that starts at address [a]. *)
Definition read_bytes (m : memory) (a : Z) (n : nat) : list byte :=
  map (fun i => m (a + Z.of_nat i)) (seq 0 n).

(** The primitive actions an operation can perform on behalf of an instance. *)
Inductive Event : Type :=
| EvMemcpy (dst : Z) (src : list byte) (n : Z)
| EvMemset (dst : Z) (c : byte) (n : Z)
| EvHostCall (entry : Z) (instance : Z)
| EvDeallocate (descriptor : Z) (finalize : bool).

Record State : Type := mkState {
  mem : memory;
  trace : list Event
}.

(** An operation either returns or ends the process in a fatal diagnostic
    that names the failed check. *)
Inductive result (A : Type) : Type :=
| Returned (a : A)
| Crashed (check : string).
Arguments Returned {A} a.
Arguments Crashed {A} check.

Definition M (A : Type) : Type := State -> result A * State.

Definition ret {A} (a : A) : M A := fun s => (Returned a, s).

Definition bind {A B} (m : M A) (f : A -> M B) : M B :=
  fun s =>
    match m s with
    | (Returned a, s') => f a s'
    | (Crashed c, s') => (Crashed c, s')
    end.

Declare Scope rt_scope.
Delimit Scope rt_scope with rt.
Notation "m1 ;; m2" := (bind m1 (fun _ => m2))
  (at level 61, right associativity) : rt_scope.
Local Open Scope rt_scope.

Definition when (b : bool) (m : M unit) : M unit := if b then m else ret tt.

Fixpoint for_each {A} (f : A -> M unit) (l : list A) : M unit :=
  match l with
  | [] => ret tt
  | x :: rest => f x ;; for_each f rest
  end.

(** Two operations are equivalent when they agree on every state. *)
Definition meq {A} (m1 m2 : M A) : Prop := forall s, m1 s = m2 s.

Definition memcpy (dst : Z) (src : list byte) (n : Z) : M unit :=
  fun s => (Returned tt,
            mkState (memcpy_bytes (mem s) dst src n)
                    (trace s ++ [EvMemcpy dst src n])).

Definition memset (dst : Z) (c : byte) (n : Z) : M unit :=
  fun s => (Returned tt,
            mkState (memset_bytes (mem s) dst c n)
                    (trace s ++ [EvMemset dst c n])).

(** Modelled from the spec: the fatal diagnostic facility behind
    [RUNTIME_CHECK], declared in terminator.h outside this translation unit.
    It is
    "a fatal, non-returning report used only for internal-consistency
    violations", "naming the failing check". *)
Definition CheckFailed {A} (check : string) : M A := fun s => (Crashed check, s).

(** The collaborators outside this translation unit: the compiled procedures
    reached through [ExecutableCode::host], and the deallocation operation of
    a descriptor that lives inside an instance.  Each is known only by its
    effect on memory. *)
Class Runtime : Type := {
  host_code : Z -> Z -> memory -> memory;
  descriptor_Deallocate : Z -> bool -> memory -> memory
}.

(* ================================================================== *)
(** ** The static tables *)

Definition TypeCode : Type := Z.
Definition TypeParameterValue : Type := Z.

Record TypeParameter : Type := mkTypeParameter {
  tp_name_ : string;
  tp_typeCode_ : TypeCode;
  which_ : Z;
  value_ : TypeParameterValue
}.

Definition IsKindTypeParameter (p : TypeParameter) : bool := which_ p <? 0.
Definition IsLenTypeParameter (p : TypeParameter) : bool := 0 <=? which_ p.
Definition StaticValue (p : TypeParameter) : TypeParameterValue := value_ p.

Record ExecutableCode : Type := mkExecutableCode {
  host : Z;
  device : Z
}.

Record TypeBoundProcedure : Type := mkTypeBoundProcedure {
  flags : Z;
  finalRank : Z;
  name : string;
  code : ExecutableCode
}.

(** [enum TypeBoundProcedure::Flag] *)
Definition INITIALIZER : Z := 1.
Definition ELEMENTAL : Z := 2.
Definition ASSIGNMENT : Z := 4.
Definition ASSUMED_RANK_FINAL : Z := 8.

(** Conversion of an integer to [bool] in a condition. *)
Definition nonzero (x : Z) : bool := negb (x =? 0).

Definition IsFinalForRank (p : TypeBoundProcedure) (rank : Z) : bool :=
  nonzero (Z.land (flags p) ASSUMED_RANK_FINAL)
  || nonzero (Z.land (Z.shiftr (finalRank p) rank) 1).

(** [enum Component::Flag] *)
Definition PARENT : Z := 1.
Definition PRIVATE : Z := 2.
Definition IS_DESCRIPTOR : Z := 4.

(** [enum DerivedType::Flag] *)
Definition SEQUENCE : Z := 1.
Definition BIND_C : Z := 2.
Definition FINALIZABLE : Z := 4.
Definition INIT_ZERO : Z := 8.
Definition INIT_COMPONENT : Z := 16.

(** [DerivedType], [Component] and the part of [Descriptor] and
    [DescriptorAddendum] that this unit reads.  A component refers to a static
    descriptor, whose addendum refers to the nested type: the tables form a
    finite tree, since a static descriptor describes storage embedded in the
    instance. *)
Inductive DerivedType : Type := mkDerivedType {
  name_ : string;
  kindParameters_ : Z;
  lenParameters_ : Z;
  typeParameter_ : list TypeParameter;
  component_ : list Component;
  typeBoundProcedure_ : list TypeBoundProcedure;
  flags_ : Z;
  initializer_ : option (list byte);
  bytes_ : Z;
  initTBP_ : Z
}
with Component : Type := mkComponent {
  c_name_ : string;
  c_flags_ : Z;
  typeCode_ : TypeCode;
  staticDescriptor_ : option Descriptor;
  offset_ : Z
}
with Descriptor : Type := mkDescriptor {
  Addendum : option DescriptorAddendum
}
with DescriptorAddendum : Type := mkDescriptorAddendum {
  derivedType : option DerivedType
}.

(** *** Component *)

Definition staticDescriptor (c : Component) : option Descriptor := staticDescriptor_ c.
Definition IsParent (c : Component) : bool := nonzero (Z.land (c_flags_ c) PARENT).
Definition IsPrivate (c : Component) : bool := nonzero (Z.land (c_flags_ c) PRIVATE).
Definition IsDescriptor (c : Component) : bool :=
  nonzero (Z.land (c_flags_ c) IS_DESCRIPTOR).

(** [Locate<A>(dtInstance)]: the address [dtInstance + offset_]. *)
Definition Locate (c : Component) (dtInstance : Z) : Z := dtInstance + offset_ c.

(** *** DerivedType: accessors *)

Definition components (t : DerivedType) : Z := Z.of_nat (List.length (component_ t)).
Definition typeBoundProcedures (t : DerivedType) : Z :=
  Z.of_nat (List.length (typeBoundProcedure_ t)).
Definition SizeInBytes (t : DerivedType) : Z := bytes_ t.

Definition IsExtension (t : DerivedType) : bool :=
  match component_ t with
  | c0 :: _ => IsParent c0
  | [] => false
  end.

Definition IsSequence (t : DerivedType) : bool := nonzero (Z.land (flags_ t) SEQUENCE).
Definition IsBindC (t : DerivedType) : bool := nonzero (Z.land (flags_ t) BIND_C).

Definition isSome {A} (o : option A) : bool :=
  match o with Some _ => true | None => false end.

Definition IsInitializable (t : DerivedType) : bool :=
  isSome (initializer_ t) || (0 <=? initTBP_ t)
  || nonzero (Z.land (flags_ t) (Z.lor INIT_ZERO INIT_COMPONENT)).
Definition IsInitZero (t : DerivedType) : bool := nonzero (Z.land (flags_ t) INIT_ZERO).
Definition IsFinalizable (t : DerivedType) : bool :=
  nonzero (Z.land (flags_ t) FINALIZABLE).

Definition with_flags (t : DerivedType) (f : Z) : DerivedType :=
  mkDerivedType (name_ t) (kindParameters_ t) (lenParameters_ t) (typeParameter_ t)
    (component_ t) (typeBoundProcedure_ t) f (initializer_ t) (bytes_ t) (initTBP_ t).

Definition set_sequence (t : DerivedType) : DerivedType :=
  with_flags t (Z.lor (flags_ t) SEQUENCE).
Definition set_bind_c (t : DerivedType) : DerivedType :=
  with_flags t (Z.lor (flags_ t) BIND_C).

(** *** DerivedType: the constructor *)

(** One iteration of the loop over the type-bound procedures; the
    accumulator is [(initTBP_, flags_)]. *)
Definition scan_procedure (j : Z) (p : TypeBoundProcedure) (acc : Z * Z) : Z * Z :=
  let '(initTBP, fl) := acc in
  (if nonzero (Z.land (flags p) INITIALIZER) then j else initTBP,
   if nonzero (finalRank p) || nonzero (Z.land (flags p) ASSUMED_RANK_FINAL)
   then Z.lor fl FINALIZABLE else fl).

Fixpoint scan_procedures (j : Z) (tbp : list TypeBoundProcedure) (acc : Z * Z)
  : Z * Z :=
  match tbp with
  | [] => acc
  | p :: rest => scan_procedures (j + 1) rest (scan_procedure j p acc)
  end.

(** One iteration of the loop over the components. *)
Definition scan_component (c : Component) (fl : Z) : Z :=
  if IsDescriptor c then Z.lor fl INIT_ZERO
  else
    match staticDescriptor c with
    | Some staticDesc =>
      match Addendum staticDesc with
      | Some addendum =>
        match derivedType addendum with
        | Some type =>
          if IsInitializable type && negb (IsInitZero type)
          then Z.lor fl INIT_COMPONENT else fl
        | None => fl
        end
      | None => fl
      end
    | None => fl
    end.

Fixpoint scan_components (ca : list Component) (fl : Z) : Z :=
  match ca with
  | [] => fl
  | c :: rest => scan_components rest (scan_component c fl)
  end.

(** [DerivedType::DerivedType(n, kps, lps, tp, cs, ca, tbps, tbp, init, sz)];
    [cs] and [tbps] are the lengths of [ca] and [tbp]. *)
Definition DerivedType_ctor (n : string) (kps lps : Z) (tp : list TypeParameter)
    (ca : list Component) (tbp : list TypeBoundProcedure)
    (init : option (list byte)) (sz : Z) : DerivedType :=
  let '(initTBP, fl) := scan_procedures 0 tbp (-1, 0) in
  let fl' :=
    if negb (isSome init) && (initTBP <? 0) then scan_components ca fl else fl in
  mkDerivedType n kps lps tp ca tbp fl' init sz initTBP.

(* ================================================================== *)
(** ** The operations on one scalar instance *)

Section Operations.
Context {rt : Runtime}.

(** [f(instance)] for [f] the procedure at the host entry point [entry]. *)
Definition call_host (entry : Z) (instance : Z) : M unit :=
  fun s => (Returned tt,
            mkState (host_code entry instance (mem s))
                    (trace s ++ [EvHostCall entry instance])).

(** [Descriptor::Deallocate(finalize)] on the descriptor stored at address
    [descriptor] inside the instance. *)
Definition Deallocate (descriptor : Z) (finalize : bool) : M unit :=
  fun s => (Returned tt,
            mkState (descriptor_Deallocate descriptor finalize (mem s))
                    (trace s ++ [EvDeallocate descriptor finalize])).

(** [DerivedType::Initialize(char *instance)]. *)
Fixpoint Initialize (t : DerivedType) (instance : Z) {struct t} : M unit :=
  match initializer_ t with
  | Some image => memcpy instance image (bytes_ t)
  | None =>
    let fill_and_components : M unit :=
      when (nonzero (Z.land (flags_ t) INIT_ZERO))
           (memset instance x00 (bytes_ t)) ;;
      when (nonzero (Z.land (flags_ t) INIT_COMPONENT))
           (for_each
              (fun c =>
                 match staticDescriptor c with
                 | Some staticDesc =>
                   Descriptor_Initialize staticDesc (Locate c instance)
                 | None => ret tt
                 end)
              (component_ t)) in
    if 0 <=? initTBP_ t then
      (* [initTBP_] is an index recorded by the constructor, so the entry
         exists for every constructed type *)
      match nth_error (typeBoundProcedure_ t) (Z.to_nat (initTBP_ t)) with
      | Some p =>
        if nonzero (host (code p)) then call_host (host (code p)) instance
        else fill_and_components
      | None => fill_and_components
      end
    else fill_and_components
  end
(** Modelled from the spec: [Descriptor::Initialize] is defined in
    descriptor.cpp, outside this translation unit.  For a component with a
    static descriptor, "locate its sub-instance and recursively invoke that
    nested type's Initialize on it". *)
with Descriptor_Initialize (d : Descriptor) (data : Z) {struct d} : M unit :=
  match Addendum d with
  | Some addendum =>
    match derivedType addendum with
    | Some type => Initialize type data
    | None => ret tt
    end
  | None => ret tt
  end.

(** The body of the loop of [DestroyNonParentComponents], for one component;
    [Destroy] is [Descriptor::Destroy]. *)
Definition destroy_component (Destroy : Descriptor -> Z -> bool -> M unit)
    (instance : Z) (finalize : bool) (comp : Component) : M unit :=
  if IsParent comp then ret tt
  else if IsDescriptor comp then Deallocate (Locate comp instance) finalize
  else
    match staticDescriptor comp with
    | Some staticDescriptor => Destroy staticDescriptor (Locate comp instance) finalize
    | None => ret tt
    end.

(** The body of the loop over the type-bound procedures in
    [DestroyScalarInstance]. *)
Definition finalize_with (instance : Z) (tbp : TypeBoundProcedure) : M unit :=
  if nonzero (Z.land (flags tbp) ELEMENTAL) && nonzero (Z.land (finalRank tbp) 1)
  then
    if nonzero (host (code tbp)) then call_host (host (code tbp)) instance
    else ret tt
  else ret tt.

(** [DerivedType::DestroyScalarInstance(char *instance, bool finalize)]. *)
Fixpoint DestroyScalarInstance (t : DerivedType) (instance : Z) (finalize : bool)
    {struct t} : M unit :=
  when (finalize && IsFinalizable t)
       (for_each (finalize_with instance) (typeBoundProcedure_ t)) ;;
  (* DestroyNonParentComponents(instance, finalize) *)
  for_each (destroy_component Descriptor_Destroy instance finalize) (component_ t) ;;
  if IsExtension t then
    match component_ t with
    | [] => ret tt
    | c0 :: _ =>
      match staticDescriptor c0 with
      | None => CheckFailed "staticParentDescriptor"
      | Some staticParentDescriptor =>
        match Addendum staticParentDescriptor with
        | None => CheckFailed "parentAddendum"
        | Some parentAddendum =>
          match derivedType parentAddendum with
          | None => CheckFailed "parentType"
          | Some parentType => DestroyScalarInstance parentType instance finalize
          end
        end
      end
    end
  else ret tt
(** Modelled from the spec: [Descriptor::Destroy] is defined in
    descriptor.cpp, outside this translation unit.  For a component that
    carries a static descriptor, "delegate to that nested type's destroy
    operation on the sub-instance". *)
with Descriptor_Destroy (d : Descriptor) (data : Z) (finalize : bool) {struct d}
    : M unit :=
  match Addendum d with
  | Some addendum =>
    match derivedType addendum with
    | Some dt => DestroyScalarInstance dt data finalize
    | None => ret tt
    end
  | None => ret tt
  end.

(** [DerivedType::DestroyNonParentComponents(char *instance, bool finalize)]. *)
Definition DestroyNonParentComponents (t : DerivedType) (instance : Z)
    (finalize : bool) : M unit :=
  for_each (destroy_component Descriptor_Destroy instance finalize) (component_ t).

End Operations.

(** *** Type-relation queries *)

Section TypeRelations.

(** Identity of two type descriptions, as the runtime decides it. *)
Variable same_type : DerivedType -> DerivedType -> bool.

(** Modelled from the spec: [DerivedType::Extends] is declared in
    derived-type.h and defined outside this translation unit.  "Extends walks
    the chain of parent components' nested-type pointers and reports whether
    the given type appears in it"; an extended type has "component index 0
    flagged parent", whose static descriptor identifies the base type. *)
Fixpoint Extends (a b : DerivedType) {struct a} : bool :=
  match component_ a with
  | c0 :: _ =>
    if IsParent c0 then
      match staticDescriptor c0 with
      | Some staticParentDescriptor =>
        match Addendum staticParentDescriptor with
        | Some parentAddendum =>
          match derivedType parentAddendum with
          | Some parent => same_type parent b || Extends parent b
          | None => false
          end
        | None => false
        end
      | None => false
      end
    else false
  | [] => false
  end.

End TypeRelations.

(** *** DerivedType: indexed accessors *)

(** [array[n]] for an index inside the array. *)
Definition element {A} (array : list A) (n : Z) : option A :=
  if n <? 0 then None else nth_error array (Z.to_nat n).

Definition kindParameters (t : DerivedType) : Z := kindParameters_ t.
Definition lenParameters (t : DerivedType) : Z := lenParameters_ t.

Definition kindTypeParameter (t : DerivedType) (n : Z) : option TypeParameter :=
  element (typeParameter_ t) n.
Definition lenTypeParameter (t : DerivedType) (n : Z) : option TypeParameter :=
  element (typeParameter_ t) (kindParameters_ t + n).

(* ================================================================== *)
(** ** Vocabulary of the specification

    The definitions below follow the words of the specification rather than
    the code; the theorems relate them to the operations above. *)

(** The flag bits, by position. *)
Definition is_initializer (p : TypeBoundProcedure) : bool := Z.testbit (flags p) 0.
Definition is_elemental (p : TypeBoundProcedure) : bool := Z.testbit (flags p) 1.
Definition is_assumed_rank_final (p : TypeBoundProcedure) : bool :=
  Z.testbit (flags p) 3.

(** Bit [rank] of the per-rank finalizer bitmask. *)
Definition final_bit (p : TypeBoundProcedure) (rank : Z) : bool :=
  (finalRank p / 2 ^ rank) mod 2 =? 1.

(** "has a nonzero per-rank finalizer bitmask or the assumed-rank-final flag" *)
Definition declares_finalizer (p : TypeBoundProcedure) : Prop :=
  finalRank p <> 0 \/ is_assumed_rank_final p = true.

(** The nested type named by a component's static descriptor, if any. *)
Definition nestedType (c : Component) : option DerivedType :=
  match staticDescriptor c with
  | Some d =>
    match Addendum d with
    | Some a => derivedType a
    | None => None
    end
  | None => None
  end.

(** "a static descriptor whose nested type is independently initializable and
    is not itself purely zero-initializable" *)
Definition needs_component_init (c : Component) : bool :=
  match nestedType c with
  | Some ty => IsInitializable ty && negb (IsInitZero ty)
  | None => false
  end.

(** The Boolean form of [declares_finalizer], as the first loop tests it. *)
Definition declares_finalizer_b (p : TypeBoundProcedure) : bool :=
  nonzero (finalRank p) || nonzero (Z.land (flags p) ASSUMED_RANK_FINAL).

(** The bit that one component contributes in the second loop. *)
Definition component_flag (c : Component) : Z :=
  if IsDescriptor c then INIT_ZERO
  else if needs_component_init c then INIT_COMPONENT else 0.

(** The parent type of an extended type: the nested type of component 0. *)
Definition parentType (t : DerivedType) : option DerivedType :=
  match component_ t with
  | c0 :: _ => nestedType c0
  | [] => None
  end.

(** The check that fails on an extended type without a usable parent. *)
Definition failed_parent_check (t : DerivedType) : string :=
  match component_ t with
  | c0 :: _ =>
    match staticDescriptor c0 with
    | None => "staticParentDescriptor"
    | Some d =>
      match Addendum d with
      | None => "parentAddendum"
      | Some _ => "parentType"
      end
    end
  | [] => ""
  end.

(** The chain of the parent components' nested types: parent, grandparent,
    and so on, as far as the tables name them. *)
Fixpoint ancestors (t : DerivedType) : list DerivedType :=
  match component_ t with
  | c0 :: _ =>
    if IsParent c0 then
      match staticDescriptor c0 with
      | Some d =>
        match Addendum d with
        | Some a =>
          match derivedType a with
          | Some p => p :: ancestors p
          | None => []
          end
        | None => []
        end
      | None => []
      end
    else []
  | [] => []
  end.

(** The number of nested types below component 0. *)
Fixpoint height (t : DerivedType) : nat :=
  match component_ t with
  | c0 :: _ =>
    match staticDescriptor c0 with
    | Some d =>
      match Addendum d with
      | Some a =>
        match derivedType a with
        | Some p => S (height p)
        | None => O
        end
      | None => O
      end
    | None => O
    end
  | [] => O
  end.

(** [t :: ancestors], from the most-derived type down to the base type. *)
Inductive inheritance_chain : DerivedType -> list DerivedType -> Prop :=
| chain_base t :
    IsExtension t = false -> inheritance_chain t [t]
| chain_extends t p l :
    IsExtension t = true -> parentType t = Some p ->
    inheritance_chain p l -> inheritance_chain t (t :: l).

Definition non_parent_components (t : DerivedType) : list Component :=
  filter (fun c => negb (IsParent c)) (component_ t).

Section SpecOperations.
Context {rt : Runtime}.

(** The rank-0 elemental finalizers that have a host entry point. *)
Definition is_scalar_finalizer (p : TypeBoundProcedure) : bool :=
  is_elemental p && final_bit p 0 && negb (host (code p) =? 0).

Definition run_scalar_finalizers (t : DerivedType) (instance : Z)
    (finalize : bool) : M unit :=
  when (finalize && IsFinalizable t)
       (for_each (fun p => call_host (host (code p)) instance)
                 (filter is_scalar_finalizer (typeBoundProcedure_ t))).

(** Destruction of one component that is not the parent. *)
Definition destroy_non_parent (instance : Z) (finalize : bool) (comp : Component)
  : M unit :=
  if IsDescriptor comp then Deallocate (Locate comp instance) finalize
  else
    match nestedType comp with
    | Some dt => DestroyScalarInstance dt (Locate comp instance) finalize
    | None => ret tt
    end.

(** What one level of an inheritance chain contributes: its finalizers, then
    each of its non-parent components once. *)
Definition destroy_level (instance : Z) (finalize : bool) (t : DerivedType)
  : M unit :=
  run_scalar_finalizers t instance finalize ;;
  for_each (destroy_non_parent instance finalize) (non_parent_components t).

(** The last step of [DestroyScalarInstance]. *)
Definition destroy_parent (t : DerivedType) (instance : Z) (finalize : bool)
  : M unit :=
  if IsExtension t then
    match parentType t with
    | Some p => DestroyScalarInstance p instance finalize
    | None => CheckFailed (failed_parent_check t)
    end
  else ret tt.

(** Step (1) of [DestroyScalarInstance] as the specification words it: every
    procedure flagged elemental whose bitmask bit 0 is set is invoked, whether
    or not it has a host entry point. *)
Definition run_flagged_finalizers (t : DerivedType) (instance : Z)
    (finalize : bool) : M unit :=
  when (finalize && IsFinalizable t)
       (for_each (fun p => call_host (host (code p)) instance)
                 (filter (fun p => is_elemental p && final_bit p 0)
                         (typeBoundProcedure_ t))).

(** [DestroyScalarInstance] with step (1) worded that way. *)
Definition destroy_as_worded (t : DerivedType) (instance : Z) (finalize : bool)
  : M unit :=
  run_flagged_finalizers t instance finalize ;;
  for_each (destroy_non_parent instance finalize) (non_parent_components t) ;;
  destroy_parent t instance finalize.

(** The state after the whole instance has been zero-filled. *)
Definition zero_filled (t : DerivedType) (instance : Z) (s : State) : State :=
  mkState (memset_bytes (mem s) instance x00 (bytes_ t))
          (trace s ++ [EvMemset instance x00 (bytes_ t)]).

(** Step 4 of [Initialize]: per-component recursive initialization. *)
Definition initialize_components (t : DerivedType) (instance : Z) : M unit :=
  for_each
    (fun c =>
       match nestedType c with
       | Some ty => Initialize ty (Locate c instance)
       | None => ret tt
       end)
    (component_ t).

(** Steps 3 and 4 of [Initialize]. *)
Definition fill_and_components (t : DerivedType) (instance : Z) : M unit :=
  when (IsInitZero t) (memset instance x00 (bytes_ t)) ;;
  when (nonzero (Z.land (flags_ t) INIT_COMPONENT)) (initialize_components t instance).

End SpecOperations.

(** *** Runs along the inheritance chain *)

(** The last type of the chain [t :: ancestors t]: the base type, or the
    extension whose parent component names no usable parent type. *)
Definition chain_last (t : DerivedType) : DerivedType := last (ancestors t) t.

(** How the chain ends: silently at a base type, in the fatal diagnostic at
    an extension without usable parent. *)
Definition chain_end (t : DerivedType) : M unit :=
  if IsExtension (chain_last t)
  then CheckFailed (failed_parent_check (chain_last t))
  else ret tt.

(** [m], started in [s], returns to its caller in [s']. *)
Definition returns_to (m : M unit) (s s' : State) : Prop :=
  m s = (Returned tt, s').

(** Each element of the list is stepped exactly once, in order, from [s] to
    [s']. *)
Inductive runs_each {A} (step : A -> State -> State -> Prop)
  : list A -> State -> State -> Prop :=
| runs_nil s : runs_each step [] s s
| runs_cons x l s s1 s' :
    step x s s1 -> runs_each step l s1 s' -> runs_each step (x :: l) s s'.

Section LevelRuns.
Context {rt : Runtime}.

(** One level of the chain has been torn down completely: its scalar
    finalizers have run, then each of its non-parent components has been
    destroyed exactly once, in declaration order. *)
Definition level_completes (instance : Z) (finalize : bool) (t : DerivedType)
    (s s' : State) : Prop :=
  exists mid,
    returns_to (run_scalar_finalizers t instance finalize) s mid /\
    runs_each (fun c => returns_to (destroy_non_parent instance finalize c))
              (non_parent_components t) mid s'.

End LevelRuns.

(** *** What an operation does, as seen in the trace *)

(** [m] only appends actions to the trace, and each of them satisfies [Q];
    this also covers the runs that end in the fatal diagnostic. *)
Definition emits (Q : Event -> Prop) (m : M unit) : Prop :=
  forall s, exists evs,
    trace (snd (m s)) = trace s ++ evs /\ Forall Q evs.

(** The actions an initialization may perform. *)
Definition initialize_event (e : Event) : Prop :=
  match e with
  | EvMemcpy _ _ _ => True
  | EvMemset _ c _ => c = x00
  | EvHostCall entry _ => entry <> 0
  | EvDeallocate _ _ => False
  end.

(** The actions a destruction called with [finalize] may perform. *)
Definition destroy_event (finalize : bool) (e : Event) : Prop :=
  match e with
  | EvMemcpy _ _ _ => False
  | EvMemset _ _ _ => False
  | EvHostCall entry _ => finalize = true /\ entry <> 0
  | EvDeallocate _ f => f = finalize
  end.

(** The same procedure with another device entry point. *)
Definition with_device (d : TypeBoundProcedure -> Z) (p : TypeBoundProcedure)
  : TypeBoundProcedure :=
  mkTypeBoundProcedure (flags p) (finalRank p) (name p)
                       (mkExecutableCode (host (code p)) (d p)).

(* ================================================================== *)
(** ** Concrete tables used as test inputs *)

Module Examples.

(** A runtime whose external procedures leave memory untouched. *)
Definition quiet : Runtime :=
  {| host_code := fun _ _ m => m; descriptor_Deallocate := fun _ _ m => m |}.

Definition s0 : State := mkState (fun _ => xff) [].

(** How an operation started in [s0] ends, and the actions it performed. *)
Definition outcome (m : M unit) : result unit * list Event :=
  let '(r, s) := m s0 in (r, trace s).

Definition no_code : ExecutableCode := mkExecutableCode 0 0.
Definition host_at (entry : Z) : ExecutableCode := mkExecutableCode entry 0.

Definition static_of (t : DerivedType) : option Descriptor :=
  Some (mkDescriptor (Some (mkDescriptorAddendum (Some t)))).

(** An allocatable (descriptor-valued) component at [offset]. *)
Definition allocatable (nm : string) (offset : Z) : Component :=
  mkComponent nm IS_DESCRIPTOR 0 None offset.

(** A component of nested type [t] at [offset]. *)
Definition nested (nm : string) (t : DerivedType) (offset : Z) : Component :=
  mkComponent nm 0 0 (static_of t) offset.

(** The parent component of an extension of [t]. *)
Definition parent_of (t : DerivedType) : Component :=
  mkComponent "parent" PARENT 0 (static_of t) 0.

Definition final_sub (nm : string) (entry : Z) : TypeBoundProcedure :=
  mkTypeBoundProcedure ELEMENTAL 1 nm (host_at entry).

(** A three-level chain grandchild -> child -> base; every level has a scalar
    finalizer and one allocatable component. *)
Definition base : DerivedType :=
  DerivedType_ctor "base" 0 0 [] [allocatable "a" 0]
                   [final_sub "final_base" 3000] None 24.
Definition child : DerivedType :=
  DerivedType_ctor "child" 0 0 [] [parent_of base; allocatable "b" 24]
                   [final_sub "final_child" 2000] None 48.
Definition grandchild : DerivedType :=
  DerivedType_ctor "grandchild" 0 0 [] [parent_of child; allocatable "c" 48]
                   [final_sub "final_grandchild" 1000] None 72.

(** An extension whose parent component has no static descriptor. *)
Definition orphan : DerivedType :=
  DerivedType_ctor "orphan" 0 0 [] [mkComponent "parent" PARENT 0 None 0] [] None 8.

(** A type with a flat default image. *)
Definition pair : DerivedType :=
  DerivedType_ctor "pair" 0 0 [] [] [] (Some [x01; x02]) 2.

(** A flat default image next to an allocatable component, an initializer
    procedure and a finalizer. *)
Definition init_proc (entry : Z) : TypeBoundProcedure :=
  mkTypeBoundProcedure INITIALIZER 0 "init" (host_at entry).
Definition imaged : DerivedType :=
  DerivedType_ctor "imaged" 0 0 [] [allocatable "a" 0; nested "p" pair 24]
                   [init_proc 500; final_sub "final" 600]
                   (Some [x0a; x0b; x0c; x0d]) 4.

(** A type with an initializer procedure at host entry [entry]. *)
Definition with_init (entry : Z) : DerivedType :=
  DerivedType_ctor "with_init" 0 0 []
    [allocatable "a" 0]
    [final_sub "final" 600; init_proc entry] None 24.

(** A type whose only procedure is an elemental rank-0 finalizer that has no
    host entry point. *)
Definition device_only : DerivedType :=
  DerivedType_ctor "device_only" 0 0 [] []
    [mkTypeBoundProcedure ELEMENTAL 1 "final" no_code] None 4.

(** An allocatable component followed by a component of type [pair]. *)
Definition mixed : DerivedType :=
  DerivedType_ctor "mixed" 0 0 [] [allocatable "a" 0; nested "p" pair 2]
                   [final_sub "final" 700] None 4.

(** Only an allocatable component. *)
Definition holder : DerivedType :=
  DerivedType_ctor "holder" 0 0 [] [allocatable "a" 0] [] None 4.

(** Plain data: one component without any descriptor. *)
Definition plain : DerivedType :=
  DerivedType_ctor "plain" 0 0 [] [mkComponent "x" 0 0 None 0] [] None 4.

(** Plain data, a nested plain type and a nested type that is purely
    zero-initializable; with a finalizer. *)
Definition plain_outer : DerivedType :=
  DerivedType_ctor "plain_outer" 0 0 []
    [mkComponent "x" PRIVATE 0 None 0; nested "n" plain 4; nested "h" holder 8]
    [final_sub "final" 700] None 12.

(** Identity of the example types: they have distinct names. *)
Definition same_name (a b : DerivedType) : bool := String.eqb (name_ a) (name_ b).

(** Two initializer-flagged procedures; the last one is at [entry]. *)
Definition two_inits (entry : Z) : DerivedType :=
  DerivedType_ctor "two_inits" 0 0 []
    [allocatable "a" 0]
    [init_proc 500; final_sub "final" 600; init_proc entry; final_sub "last" 900]
    None 24.

(** A procedure that is final for rank 31 only. *)
Definition final_rank31 : TypeBoundProcedure :=
  mkTypeBoundProcedure 0 (2 ^ 31) "final31" (host_at 800).

End Examples.

Module MoreExamples.
Import Examples.

(** An elemental finalizer declared for assumed rank only. *)
Definition final_assumed_rank : TypeBoundProcedure :=
  mkTypeBoundProcedure (Z.lor ELEMENTAL ASSUMED_RANK_FINAL) 0 "final_any"
                       (host_at 1200).

(** A type whose finalizers are one for assumed rank and one for rank 1. *)
Definition assumed_rank_only : DerivedType :=
  DerivedType_ctor "assumed_rank_only" 0 0 [] [allocatable "a" 0]
    [final_assumed_rank; mkTypeBoundProcedure ELEMENTAL 2 "final_1" (host_at 1300)]
    None 24.

(** A type that wraps two components of the zero-initializable type
    [holder]. *)
Definition wrapper : DerivedType :=
  DerivedType_ctor "wrapper" 0 0 [] [nested "h1" holder 0; nested "h2" holder 4]
                   [final_sub "final" 700] None 8.

(** Two components of nested types, none of them a descriptor: one with a
    flat image, one zero-initializable. *)
Definition framed : DerivedType :=
  DerivedType_ctor "framed" 0 0 [] [nested "p" pair 0; nested "h" holder 4]
                   [final_sub "final" 700] None 8.

(** Allocatable and plain components only, one of them flagged parent and
    descriptor at once. *)
Definition flat_record : DerivedType :=
  DerivedType_ctor "flat_record" 0 0 []
    [allocatable "a" 0; mkComponent "x" PRIVATE 0 None 24;
     mkComponent "odd" (Z.lor PARENT IS_DESCRIPTOR) 0 None 32; allocatable "b" 56]
    [] None 80.

(** An extension of [orphan]: its own parent is usable, its grandparent is
    not. *)
Definition child_of_orphan : DerivedType :=
  DerivedType_ctor "child_of_orphan" 0 0 [] [parent_of orphan; allocatable "c" 8]
                   [final_sub "final_child" 2500] None 32.

(** An extension of [base] with a component of type [orphan] before an
    allocatable component. *)
Definition outer_with_orphan : DerivedType :=
  DerivedType_ctor "outer_with_orphan" 0 0 []
    [parent_of base; nested "n" orphan 24; allocatable "z" 32]
    [final_sub "final_outer" 4000] None 56.

End MoreExamples.

(* ================================================================== *)
(** ** Flag words *)

Lemma nonzero_true x : nonzero x = true <-> x <> 0.
Proof.
  unfold nonzero. rewrite negb_true_iff, Z.eqb_neq. tauto.
Qed.

Lemma nonzero_false x : nonzero x = false <-> x = 0.
Proof.
  unfold nonzero. rewrite negb_false_iff, Z.eqb_eq. tauto.
Qed.

(** Masking with a single bit and testing against zero reads that bit. *)
Lemma nonzero_land_pow2 f k :
  0 <= k -> nonzero (Z.land f (2 ^ k)) = Z.testbit f k.
Proof.
  intros Hk. destruct (Z.testbit f k) eqn:E.
  - apply nonzero_true. intros H0.
    assert (Hb : Z.testbit (Z.land f (2 ^ k)) k = true).
    { rewrite Z.land_spec, E, Z.pow2_bits_true by assumption. reflexivity. }
    rewrite H0, Z.bits_0 in Hb. discriminate.
  - apply nonzero_false. apply Z.bits_inj'. intros n Hn.
    rewrite Z.land_spec, Z.bits_0, Z.pow2_bits_eqb by assumption.
    destruct (Z.eqb_spec k n) as [->|_].
    + rewrite E. reflexivity.
    + apply andb_false_r.
Qed.

Lemma land_1 f : nonzero (Z.land f 1) = Z.testbit f 0.
Proof. apply (nonzero_land_pow2 f 0). lia. Qed.
Lemma land_2 f : nonzero (Z.land f 2) = Z.testbit f 1.
Proof. apply (nonzero_land_pow2 f 1). lia. Qed.
Lemma land_4 f : nonzero (Z.land f 4) = Z.testbit f 2.
Proof. apply (nonzero_land_pow2 f 2). lia. Qed.
Lemma land_8 f : nonzero (Z.land f 8) = Z.testbit f 3.
Proof. apply (nonzero_land_pow2 f 3). lia. Qed.
Lemma land_16 f : nonzero (Z.land f 16) = Z.testbit f 4.
Proof. apply (nonzero_land_pow2 f 4). lia. Qed.

(** Bit [rank] of a word, arithmetically and through a right shift. *)
Lemma testbit_div_mod a n :
  0 <= n -> ((a / 2 ^ n) mod 2 =? 1) = Z.testbit a n.
Proof.
  intros Hn. destruct (Z.testbit a n) eqn:E.
  - apply Z.eqb_eq. apply Z.testbit_true; assumption.
  - apply Z.eqb_neq. apply (Z.testbit_false a n Hn) in E. lia.
Qed.

Lemma shiftr_land_1 a n :
  0 <= n -> nonzero (Z.land (Z.shiftr a n) 1) = Z.testbit a n.
Proof.
  intros Hn. rewrite land_1, Z.shiftr_spec by lia. reflexivity.
Qed.

Lemma testbit_one n : 0 <= n -> Z.testbit 1 n = (n =? 0).
Proof.
  intros Hn. change 1 with (2 ^ 0). rewrite Z.pow2_bits_eqb by lia.
  apply Z.eqb_sym.
Qed.

Lemma final_bit_testbit p rank :
  0 <= rank -> final_bit p rank = Z.testbit (finalRank p) rank.
Proof. intros H. unfold final_bit. apply testbit_div_mod; assumption. Qed.

(** The source's flag tests, read as the named bits. *)
Lemma initializer_flag p :
  nonzero (Z.land (flags p) INITIALIZER) = is_initializer p.
Proof. apply land_1. Qed.

Lemma elemental_flag p :
  nonzero (Z.land (flags p) ELEMENTAL) = is_elemental p.
Proof. apply land_2. Qed.

Lemma assumed_rank_final_flag p :
  nonzero (Z.land (flags p) ASSUMED_RANK_FINAL) = is_assumed_rank_final p.
Proof. apply land_8. Qed.

Lemma IsFinalizable_bit t : IsFinalizable t = Z.testbit (flags_ t) 2.
Proof. apply land_4. Qed.

Lemma IsInitZero_bit t : IsInitZero t = Z.testbit (flags_ t) 3.
Proof. apply land_8. Qed.

(* ================================================================== *)
(** ** The constructor's two scans *)

Lemma declares_finalizer_reflect p :
  declares_finalizer_b p = true <-> declares_finalizer p.
Proof.
  unfold declares_finalizer_b, declares_finalizer.
  rewrite orb_true_iff, nonzero_true, assumed_rank_final_flag. tauto.
Qed.

Lemma scan_procedures_app j l1 l2 acc :
  scan_procedures j (l1 ++ l2) acc =
  scan_procedures (j + Z.of_nat (List.length l1)) l2 (scan_procedures j l1 acc).
Proof.
  revert j acc. induction l1 as [|p l1 IH]; intros j acc; simpl.
  - f_equal. lia.
  - rewrite IH. f_equal. lia.
Qed.

(** The flag word after the first loop: FINALIZABLE is or-ed in exactly when
    some procedure declares a finalizer. *)
Lemma scan_procedures_flags j l i f :
  snd (scan_procedures j l (i, f)) =
  if existsb declares_finalizer_b l then Z.lor f FINALIZABLE else f.
Proof.
  revert j i f. induction l as [|p l IH]; intros j i f; simpl; [reflexivity|].
  fold (declares_finalizer_b p).
  rewrite IH. destruct (declares_finalizer_b p); simpl; [|reflexivity].
  rewrite <- Z.lor_assoc, Z.lor_diag.
  destruct (existsb declares_finalizer_b l); reflexivity.
Qed.

(** [initTBP_] after the first loop. *)
Lemma scan_procedures_no_initializer j l acc :
  Forall (fun p => is_initializer p = false) l ->
  fst (scan_procedures j l acc) = fst acc.
Proof.
  intros H. revert j acc. induction H as [|p l Hp _ IH]; intros j [i f]; simpl.
  - reflexivity.
  - rewrite IH, initializer_flag, Hp. reflexivity.
Qed.

Lemma scan_procedures_initializer j pre p post acc :
  is_initializer p = true ->
  Forall (fun q => is_initializer q = false) post ->
  fst (scan_procedures j (pre ++ p :: post) acc) = j + Z.of_nat (List.length pre).
Proof.
  intros Hp Hpost. rewrite scan_procedures_app. simpl.
  rewrite scan_procedures_no_initializer by assumption.
  destruct (scan_procedures j pre acc) as [i f]. simpl.
  rewrite initializer_flag, Hp. reflexivity.
Qed.

Lemma filter_singleton {A} (f : A -> bool) l x :
  filter f l = [x] ->
  exists pre post,
    l = pre ++ x :: post /\ f x = true /\
    Forall (fun y => f y = false) pre /\ Forall (fun y => f y = false) post.
Proof.
  induction l as [|a l IH]; simpl; [discriminate|].
  destruct (f a) eqn:E; intros H.
  - injection H as -> Hl. exists [], l. repeat split; auto.
    apply Forall_forall. intros y Hy.
    destruct (f y) eqn:Ey; [|reflexivity].
    assert (Hin : In y (filter f l)) by (apply filter_In; auto).
    rewrite Hl in Hin. destruct Hin.
  - destruct (IH H) as (pre & post & -> & Hx & Hpre & Hpost).
    exists (a :: pre), post. repeat split; auto.
Qed.

Lemma scan_component_lor c f : scan_component c f = Z.lor f (component_flag c).
Proof.
  unfold scan_component, component_flag, needs_component_init, nestedType.
  destruct (IsDescriptor c); [reflexivity|].
  destruct (staticDescriptor c) as [d|]; [|symmetry; apply Z.lor_0_r].
  destruct (Addendum d) as [a|]; [|symmetry; apply Z.lor_0_r].
  destruct (derivedType a) as [ty|]; [|symmetry; apply Z.lor_0_r].
  destruct (IsInitializable ty && negb (IsInitZero ty));
    [reflexivity|symmetry; apply Z.lor_0_r].
Qed.

Lemma scan_components_testbit ca f k :
  Z.testbit (scan_components ca f) k =
  Z.testbit f k || existsb (fun c => Z.testbit (component_flag c) k) ca.
Proof.
  revert f. induction ca as [|c ca IH]; intros f; simpl.
  - symmetry. apply orb_false_r.
  - rewrite IH, scan_component_lor, Z.lor_spec. symmetry. apply orb_assoc.
Qed.

Lemma component_flag_bit2 c : Z.testbit (component_flag c) 2 = false.
Proof.
  unfold component_flag.
  destruct (IsDescriptor c); [reflexivity|].
  destruct (needs_component_init c); reflexivity.
Qed.

Lemma component_flag_bit3 c : Z.testbit (component_flag c) 3 = IsDescriptor c.
Proof.
  unfold component_flag.
  destruct (IsDescriptor c); [reflexivity|].
  destruct (needs_component_init c); reflexivity.
Qed.

Lemma component_flag_bit4 c :
  Z.testbit (component_flag c) 4 = negb (IsDescriptor c) && needs_component_init c.
Proof.
  unfold component_flag.
  destruct (IsDescriptor c); [reflexivity|].
  destruct (needs_component_init c); reflexivity.
Qed.

Lemma existsb_pointwise {A} (f g : A -> bool) l :
  (forall x, f x = g x) -> existsb f l = existsb g l.
Proof.
  intros H. induction l as [|x l IH]; simpl; [reflexivity|].
  rewrite H, IH. reflexivity.
Qed.

Lemma components_keep_bit2 l :
  existsb (fun c => Z.testbit (component_flag c) 2) l = false.
Proof.
  induction l as [|c l IH]; [reflexivity|].
  cbn [existsb]. rewrite component_flag_bit2. exact IH.
Qed.

(** *** The fields of a constructed type *)

Lemma ctor_fields n kps lps tp ca tbp init sz :
  let t := DerivedType_ctor n kps lps tp ca tbp init sz in
  component_ t = ca /\ typeBoundProcedure_ t = tbp /\
  initializer_ t = init /\ bytes_ t = sz /\
  initTBP_ t = fst (scan_procedures 0 tbp (-1, 0)).
Proof.
  unfold DerivedType_ctor.
  destruct (scan_procedures 0 tbp (-1, 0)); simpl. auto.
Qed.

Lemma ctor_flags n kps lps tp ca tbp init sz :
  flags_ (DerivedType_ctor n kps lps tp ca tbp init sz) =
  let fl := snd (scan_procedures 0 tbp (-1, 0)) in
  if negb (isSome init) && (fst (scan_procedures 0 tbp (-1, 0)) <? 0)
  then scan_components ca fl else fl.
Proof.
  unfold DerivedType_ctor.
  destruct (scan_procedures 0 tbp (-1, 0)); reflexivity.
Qed.

Lemma ctor_finalizable_bit n kps lps tp ca tbp init sz :
  Z.testbit (flags_ (DerivedType_ctor n kps lps tp ca tbp init sz)) 2 =
  existsb declares_finalizer_b tbp.
Proof.
  rewrite ctor_flags. cbv zeta.
  assert (H : Z.testbit (snd (scan_procedures 0 tbp (-1, 0))) 2
              = existsb declares_finalizer_b tbp).
  { rewrite scan_procedures_flags.
    destruct (existsb declares_finalizer_b tbp); reflexivity. }
  destruct (negb (isSome init) && _); [|exact H].
  rewrite scan_components_testbit, H, components_keep_bit2.
  apply orb_false_r.
Qed.

(** Without a flat image and without an initializer procedure, the second
    loop decides INIT_ZERO and INIT_COMPONENT. *)
Lemma ctor_init_bits n kps lps tp ca tbp sz :
  Forall (fun p => is_initializer p = false) tbp ->
  let t := DerivedType_ctor n kps lps tp ca tbp None sz in
  initTBP_ t = -1 /\
  Z.testbit (flags_ t) 3 = existsb IsDescriptor ca /\
  Z.testbit (flags_ t) 4 =
    existsb (fun c => negb (IsDescriptor c) && needs_component_init c) ca.
Proof.
  intros Hno t.
  assert (Hi : fst (scan_procedures 0 tbp (-1, 0)) = -1)
    by (rewrite scan_procedures_no_initializer; auto).
  split.
  { destruct (ctor_fields n kps lps tp ca tbp None sz) as (_ & _ & _ & _ & E).
    subst t. rewrite E. exact Hi. }
  subst t. rewrite ctor_flags, Hi. cbv zeta.
  change (negb (isSome None) && (-1 <? 0)) with true. cbv iota.
  rewrite !scan_components_testbit, scan_procedures_flags.
  assert (E3 : Z.testbit (if existsb declares_finalizer_b tbp
                          then Z.lor 0 FINALIZABLE else 0) 3 = false)
    by (destruct (existsb declares_finalizer_b tbp); reflexivity).
  assert (E4 : Z.testbit (if existsb declares_finalizer_b tbp
                          then Z.lor 0 FINALIZABLE else 0) 4 = false)
    by (destruct (existsb declares_finalizer_b tbp); reflexivity).
  rewrite E3, E4. cbn [orb]. split.
  - apply existsb_pointwise. intros c. apply component_flag_bit3.
  - apply existsb_pointwise. intros c. apply component_flag_bit4.
Qed.

(** With an initializer procedure or a flat image the second loop is skipped:
    neither flag is set. *)
Lemma ctor_skips_components n kps lps tp ca tbp init sz :
  isSome init = true \/ 0 <= fst (scan_procedures 0 tbp (-1, 0)) ->
  let t := DerivedType_ctor n kps lps tp ca tbp init sz in
  Z.testbit (flags_ t) 3 = false /\ Z.testbit (flags_ t) 4 = false.
Proof.
  intros H t. subst t. rewrite ctor_flags. cbv zeta.
  replace (negb (isSome init) && (fst (scan_procedures 0 tbp (-1, 0)) <? 0))
    with false.
  - rewrite scan_procedures_flags.
    destruct (existsb declares_finalizer_b tbp); split; reflexivity.
  - symmetry. destruct H as [-> | H]; [reflexivity|].
    apply andb_false_iff. right. apply Z.ltb_ge. exact H.
Qed.

(* ================================================================== *)
(** ** Equivalence of operations *)

Lemma meq_refl {A} (m : M A) : meq m m.
Proof. intros s. reflexivity. Qed.

Lemma meq_sym {A} (m1 m2 : M A) : meq m1 m2 -> meq m2 m1.
Proof. intros H s. symmetry. apply H. Qed.

Lemma meq_trans {A} (m1 m2 m3 : M A) : meq m1 m2 -> meq m2 m3 -> meq m1 m3.
Proof. intros H1 H2 s. rewrite H1. apply H2. Qed.

Lemma bind_meq {A B} (m1 m2 : M A) (f1 f2 : A -> M B) :
  meq m1 m2 -> (forall a, meq (f1 a) (f2 a)) -> meq (bind m1 f1) (bind m2 f2).
Proof.
  intros Hm Hf s. unfold bind. rewrite Hm.
  destruct (m2 s) as [[a|c] s']; [apply Hf|reflexivity].
Qed.

Lemma bind_assoc {A B C} (m : M A) (f : A -> M B) (g : B -> M C) :
  meq (bind (bind m f) g) (bind m (fun a => bind (f a) g)).
Proof.
  intros s. unfold bind. destruct (m s) as [[a|c] s']; reflexivity.
Qed.

Lemma bind_ret_l {B} (m : M B) : meq (ret tt ;; m) m.
Proof. intros s. reflexivity. Qed.

Lemma bind_ret_r (m : M unit) : meq (m ;; ret tt) m.
Proof.
  intros s. unfold bind, ret. destruct (m s) as [[[]|c] s']; reflexivity.
Qed.

Lemma when_meq b (m1 m2 : M unit) : meq m1 m2 -> meq (when b m1) (when b m2).
Proof. intros H. destruct b; [exact H|apply meq_refl]. Qed.

Lemma for_each_meq {A} (f g : A -> M unit) l :
  (forall x, meq (f x) (g x)) -> meq (for_each f l) (for_each g l).
Proof.
  intros H. induction l as [|x l IH]; simpl; [apply meq_refl|].
  apply bind_meq; [apply H|intros _; exact IH].
Qed.

(** A loop that skips the elements failing [keep] is a loop over the
    elements that pass it: each of them is visited once, in order. *)
Lemma for_each_filter {A} (keep : A -> bool) (f : A -> M unit) l :
  meq (for_each (fun x => if keep x then f x else ret tt) l)
      (for_each f (filter keep l)).
Proof.
  induction l as [|x l IH]; simpl; [apply meq_refl|].
  destruct (keep x); simpl.
  - apply bind_meq; [apply meq_refl|intros _; exact IH].
  - eapply meq_trans; [apply bind_ret_l|exact IH].
Qed.

(* ================================================================== *)
(** ** The operations, one step at a time *)

Section Steps.
Context {rt : Runtime}.

Lemma Descriptor_Initialize_nested c instance :
  match staticDescriptor c with
  | Some staticDesc => Descriptor_Initialize staticDesc (Locate c instance)
  | None => ret tt
  end =
  match nestedType c with
  | Some ty => Initialize ty (Locate c instance)
  | None => ret tt
  end.
Proof.
  unfold nestedType. destruct (staticDescriptor c) as [[[[[ty|]]|]]|]; reflexivity.
Qed.

Lemma Initialize_unfold t instance :
  meq (Initialize t instance)
      match initializer_ t with
      | Some image => memcpy instance image (bytes_ t)
      | None =>
        if 0 <=? initTBP_ t then
          match nth_error (typeBoundProcedure_ t) (Z.to_nat (initTBP_ t)) with
          | Some p =>
            if nonzero (host (code p)) then call_host (host (code p)) instance
            else fill_and_components t instance
          | None => fill_and_components t instance
          end
        else fill_and_components t instance
      end.
Proof.
  assert (F : meq
    (when (nonzero (Z.land (flags_ t) INIT_ZERO)) (memset instance x00 (bytes_ t)) ;;
     when (nonzero (Z.land (flags_ t) INIT_COMPONENT))
       (for_each
          (fun c =>
             match staticDescriptor c with
             | Some staticDesc => Descriptor_Initialize staticDesc (Locate c instance)
             | None => ret tt
             end) (component_ t)))
    (fill_and_components t instance)).
  { unfold fill_and_components, initialize_components.
    apply bind_meq; [apply meq_refl|intros _].
    apply when_meq, for_each_meq. intros c s.
    rewrite Descriptor_Initialize_nested. reflexivity. }
  destruct t as [nm kp lp tps cs tbps fl [image|] sz itbp]; cbn -[nonzero Z.land].
  - apply meq_refl.
  - destruct (0 <=? itbp); [|exact F].
    destruct (nth_error tbps (Z.to_nat itbp)) as [p|]; [|exact F].
    destruct (nonzero (host (code p))); [apply meq_refl|exact F].
Qed.

Lemma finalize_with_scalar instance p :
  finalize_with instance p =
  if is_scalar_finalizer p then call_host (host (code p)) instance else ret tt.
Proof.
  unfold finalize_with, is_scalar_finalizer.
  rewrite elemental_flag, land_1, final_bit_testbit by lia.
  fold (nonzero (host (code p))).
  destruct (is_elemental p), (Z.testbit (finalRank p) 0), (nonzero (host (code p)));
    reflexivity.
Qed.

Lemma finalizers_loop t instance finalize :
  meq (when (finalize && IsFinalizable t)
            (for_each (finalize_with instance) (typeBoundProcedure_ t)))
      (run_scalar_finalizers t instance finalize).
Proof.
  unfold run_scalar_finalizers. apply when_meq.
  eapply meq_trans; [|apply for_each_filter].
  apply for_each_meq. intros p s. rewrite finalize_with_scalar. reflexivity.
Qed.

Lemma destroy_component_non_parent instance finalize c :
  destroy_component Descriptor_Destroy instance finalize c =
  if negb (IsParent c) then destroy_non_parent instance finalize c else ret tt.
Proof.
  unfold destroy_component, destroy_non_parent, nestedType.
  destruct (IsParent c); [reflexivity|]. simpl.
  destruct (IsDescriptor c); [reflexivity|].
  destruct (staticDescriptor c) as [[[[[ty|]]|]]|]; reflexivity.
Qed.

Lemma components_loop t instance finalize :
  meq (DestroyNonParentComponents t instance finalize)
      (for_each (destroy_non_parent instance finalize) (non_parent_components t)).
Proof.
  unfold DestroyNonParentComponents, non_parent_components.
  eapply meq_trans; [|apply for_each_filter].
  apply for_each_meq. intros c s.
  rewrite destroy_component_non_parent. reflexivity.
Qed.

Lemma DestroyScalarInstance_unfold t instance finalize :
  DestroyScalarInstance t instance finalize =
  (when (finalize && IsFinalizable t)
        (for_each (finalize_with instance) (typeBoundProcedure_ t)) ;;
   DestroyNonParentComponents t instance finalize ;;
   destroy_parent t instance finalize).
Proof.
  unfold destroy_parent, parentType, failed_parent_check, nestedType.
  destruct t as [nm kp lp tps cs tbps fl im sz itbp].
  destruct cs as [|[cn cf tc [[[[[p|]]|]]|] off] cs]; reflexivity.
Qed.

(** [DestroyScalarInstance] is: this level's finalizers, this level's
    non-parent components, then the parent step. *)
Lemma DestroyScalarInstance_level t instance finalize :
  meq (DestroyScalarInstance t instance finalize)
      (destroy_level instance finalize t ;; destroy_parent t instance finalize).
Proof.
  rewrite DestroyScalarInstance_unfold. unfold destroy_level.
  eapply meq_trans; [|apply meq_sym, bind_assoc].
  apply bind_meq; [apply finalizers_loop|intros _].
  apply bind_meq; [apply components_loop|intros _; apply meq_refl].
Qed.

Lemma DestroyScalarInstance_chain t l instance finalize :
  inheritance_chain t l ->
  meq (DestroyScalarInstance t instance finalize)
      (for_each (destroy_level instance finalize) l).
Proof.
  induction 1 as [t Hbase | t p l Hext Hp _ IH].
  - eapply meq_trans; [apply DestroyScalarInstance_level|].
    unfold destroy_parent. rewrite Hbase. simpl. apply meq_refl.
  - eapply meq_trans; [apply DestroyScalarInstance_level|].
    unfold destroy_parent. rewrite Hext, Hp. simpl.
    apply bind_meq; [apply meq_refl|intros _; exact IH].
Qed.

End Steps.

(* ================================================================== *)
(** ** Byte buffers *)

Lemma read_bytes_length m a n : List.length (read_bytes m a n) = n.
Proof. unfold read_bytes. rewrite length_map, length_seq. reflexivity. Qed.

Lemma read_bytes_nth m a n i :
  (i < n)%nat -> nth i (read_bytes m a n) x00 = m (a + Z.of_nat i).
Proof.
  intros Hi. unfold read_bytes.
  rewrite (nth_indep _ x00 (m (a + Z.of_nat 0)))
    by (rewrite length_map, length_seq; exact Hi).
  rewrite (map_nth (fun i => m (a + Z.of_nat i))), seq_nth by exact Hi.
  reflexivity.
Qed.

Lemma read_memcpy m dst src :
  read_bytes (memcpy_bytes m dst src (Z.of_nat (List.length src))) dst
             (List.length src) = src.
Proof.
  apply (nth_ext _ _ x00 x00); [apply read_bytes_length|].
  intros i Hi. rewrite read_bytes_length in Hi.
  rewrite read_bytes_nth by exact Hi. unfold memcpy_bytes.
  replace ((dst <=? dst + Z.of_nat i)
           && (dst + Z.of_nat i <? dst + Z.of_nat (List.length src))) with true
    by (symmetry; apply andb_true_iff; split; [apply Z.leb_le|apply Z.ltb_lt]; lia).
  f_equal. lia.
Qed.

Lemma read_memset m dst c n :
  read_bytes (memset_bytes m dst c n) dst (Z.to_nat n) = repeat c (Z.to_nat n).
Proof.
  apply (nth_ext _ _ x00 c);
    [rewrite read_bytes_length, repeat_length; reflexivity|].
  intros i Hi. rewrite read_bytes_length in Hi.
  rewrite read_bytes_nth, nth_repeat by exact Hi. unfold memset_bytes.
  replace ((dst <=? dst + Z.of_nat i) && (dst + Z.of_nat i <? dst + n)) with true;
    [reflexivity|].
  symmetry. apply andb_true_iff. split; [apply Z.leb_le|apply Z.ltb_lt]; lia.
Qed.

Lemma memcpy_frame m dst src n a :
  a < dst \/ dst + n <= a -> memcpy_bytes m dst src n a = m a.
Proof.
  intros H. unfold memcpy_bytes.
  replace ((dst <=? a) && (a <? dst + n)) with false; [reflexivity|].
  symmetry. apply andb_false_iff.
  destruct H; [left; apply Z.leb_gt|right; apply Z.ltb_ge]; lia.
Qed.

(* ================================================================== *)
(** ** Properties of the operations *)

Section Properties.
Context {rt : Runtime}.

(** C1: a type constructed with a flat default image is initialized by one
    copy of that image over the whole instance and by nothing else, whatever
    its components and procedures are and whatever its flag word has become
    since construction: the only action is the memcpy, the instance buffer
    then holds exactly the image, and no byte outside the instance changes. *)
Theorem Initialize_flat_image n kps lps tp ca tbp image sz fl instance s :
  sz = Z.of_nat (List.length image) ->
  let t := with_flags (DerivedType_ctor n kps lps tp ca tbp (Some image) sz) fl in
  exists s',
    Initialize t instance s = (Returned tt, s') /\
    trace s' = trace s ++ [EvMemcpy instance image sz] /\
    read_bytes (mem s') instance (List.length image) = image /\
    forall a, a < instance \/ instance + sz <= a -> mem s' a = mem s a.
Proof.
  intros Hsz t.
  destruct (ctor_fields n kps lps tp ca tbp (Some image) sz)
    as (_ & _ & Hinit & Hbytes & _).
  cbv zeta in Hinit, Hbytes.
  assert (Hi : initializer_ t = Some image) by exact Hinit.
  assert (Hb : bytes_ t = sz) by exact Hbytes.
  eexists. split.
  - rewrite Initialize_unfold, Hi, Hb. reflexivity.
  - cbn [mem trace]. split; [reflexivity|]. split.
    + rewrite Hsz. apply read_memcpy.
    + intros a Ha. apply memcpy_frame. exact Ha.
Qed.

(** C3: on an extended type whose parent component has no static descriptor,
    or whose static descriptor has no addendum, or whose addendum names no
    derived type, DestroyScalarInstance does this level's work and then stops
    in the fatal diagnostic of the failed check; it ends crashed and never
    enters a parent type. *)
Theorem DestroyScalarInstance_unusable_parent t c0 rest instance finalize :
  component_ t = c0 :: rest ->
  IsParent c0 = true ->
  staticDescriptor c0 = None \/
  (exists d, staticDescriptor c0 = Some d /\ Addendum d = None) \/
  (exists d a, staticDescriptor c0 = Some d /\ Addendum d = Some a /\
               derivedType a = None) ->
  exists check,
    (check = "staticParentDescriptor"%string \/ check = "parentAddendum"%string \/
     check = "parentType"%string) /\
    meq (DestroyScalarInstance t instance finalize)
        (destroy_level instance finalize t ;; CheckFailed check) /\
    forall s, exists c s',
      DestroyScalarInstance t instance finalize s = (Crashed c, s').
Proof.
  intros Hc Hpar Hbad.
  assert (Hext : IsExtension t = true) by (unfold IsExtension; rewrite Hc; exact Hpar).
  assert (Hnone : parentType t = None).
  { unfold parentType, nestedType. rewrite Hc.
    destruct Hbad as [-> | [(d & -> & ->) | (d & a & -> & -> & ->)]]; reflexivity. }
  assert (Hstep : meq (DestroyScalarInstance t instance finalize)
                      (destroy_level instance finalize t ;;
                       CheckFailed (failed_parent_check t))).
  { eapply meq_trans; [apply DestroyScalarInstance_level|].
    unfold destroy_parent. rewrite Hext, Hnone. apply meq_refl. }
  exists (failed_parent_check t). split; [|split].
  - unfold failed_parent_check. rewrite Hc.
    destruct Hbad as [-> | [(d & -> & ->) | (d & a & -> & -> & _)]]; auto.
  - exact Hstep.
  - intros s. rewrite Hstep. unfold bind, CheckFailed.
    destruct (destroy_level instance finalize t s) as [[[]|c] s']; eauto.
Qed.

(** [initTBP_] is the index of the last procedure flagged initializer. *)
Lemma ctor_initTBP_last n kps lps tp ca pre p post init sz :
  is_initializer p = true ->
  Forall (fun q => is_initializer q = false) post ->
  initTBP_ (DerivedType_ctor n kps lps tp ca (pre ++ p :: post) init sz)
  = Z.of_nat (List.length pre).
Proof.
  intros Hp Hpost.
  destruct (ctor_fields n kps lps tp ca (pre ++ p :: post) init sz)
    as (_ & _ & _ & _ & Hi).
  cbv zeta in Hi. rewrite Hi.
  rewrite (scan_procedures_initializer 0 pre p post (-1, 0) Hp Hpost). lia.
Qed.

(** Without a flat image, the last procedure flagged initializer decides
    what [Initialize] does. *)
Lemma Initialize_last_initializer n kps lps tp ca pre p post sz instance :
  is_initializer p = true ->
  Forall (fun q => is_initializer q = false) post ->
  meq (Initialize (DerivedType_ctor n kps lps tp ca (pre ++ p :: post) None sz)
                  instance)
      (if host (code p) =? 0 then ret tt else call_host (host (code p)) instance).
Proof.
  intros Hp Hpost.
  pose proof (ctor_initTBP_last n kps lps tp ca pre p post None sz Hp Hpost) as Hi.
  destruct (ctor_fields n kps lps tp ca (pre ++ p :: post) None sz)
    as (_ & Htbp & Hinit & _ & _).
  destruct (ctor_skips_components n kps lps tp ca (pre ++ p :: post) None sz)
    as [H3 H4].
  { right. rewrite (scan_procedures_initializer 0 pre p post (-1, 0) Hp Hpost). lia. }
  cbv zeta in Htbp, Hinit, H3, H4.
  eapply meq_trans; [apply Initialize_unfold|].
  rewrite Hinit, Hi, Htbp.
  replace (0 <=? Z.of_nat (List.length pre)) with true
    by (symmetry; apply Z.leb_le; lia).
  rewrite Nat2Z.id, nth_error_app2, Nat.sub_diag by lia. cbn [nth_error].
  unfold nonzero. destruct (host (code p) =? 0); cbn [negb]; [|apply meq_refl].
  unfold fill_and_components. rewrite IsInitZero_bit, land_16, H3, H4.
  intros s. reflexivity.
Qed.

(** C4 (amended): a type constructed without a flat image and with exactly
    one procedure flagged initializer is initialized by one call of that
    procedure's host entry point on the instance address when the entry point
    is not null, and by nothing at all when it is null; in neither case is
    there a zero-fill or a per-component initialization. *)
Theorem Initialize_initializer_procedure n kps lps tp ca tbp p sz instance :
  filter is_initializer tbp = [p] ->
  let t := DerivedType_ctor n kps lps tp ca tbp None sz in
  meq (Initialize t instance)
      (if host (code p) =? 0 then ret tt else call_host (host (code p)) instance).
Proof.
  intros Hone t. subst t.
  destruct (filter_singleton _ _ _ Hone) as (pre & post & -> & Hp & _ & Hpost).
  apply Initialize_last_initializer; assumption.
Qed.

(** C10 (amended): when procedures are flagged initializer, however many, the
    constructor caches the index of the last one in table order; on a type
    without a flat image Initialize then invokes that last-flagged procedure,
    through its host entry point when it is not null (and otherwise invokes
    nothing), and never one of the earlier procedures. *)
Theorem Initialize_last_flagged_initializer
    n kps lps tp ca pre p post init sz instance :
  is_initializer p = true ->
  Forall (fun q => is_initializer q = false) post ->
  initTBP_ (DerivedType_ctor n kps lps tp ca (pre ++ p :: post) init sz)
  = Z.of_nat (List.length pre) /\
  nth_error (pre ++ p :: post) (List.length pre) = Some p /\
  meq (Initialize (DerivedType_ctor n kps lps tp ca (pre ++ p :: post) None sz)
                  instance)
      (if host (code p) =? 0 then ret tt else call_host (host (code p)) instance).
Proof.
  intros Hp Hpost. split; [|split].
  - apply ctor_initTBP_last; assumption.
  - rewrite nth_error_app2, Nat.sub_diag by lia. reflexivity.
  - apply Initialize_last_initializer; assumption.
Qed.

(** C5 (amended): a type constructed without a flat image, without an
    initializer-flagged procedure and with at least one descriptor-valued
    component is initialized by first zero-filling the whole instance (all
    instance-size bytes are 0 at that point); the per-component
    initialization then runs on the zero-filled buffer exactly when some
    component that is not a descriptor carries a nested type that is
    initializable and not purely zero-initializable.  When there is no such
    component, the zero-fill is the only action and the instance is all zero
    on return. *)
Theorem Initialize_zero_fill n kps lps tp ca tbp sz instance :
  Forall (fun p => is_initializer p = false) tbp ->
  existsb IsDescriptor ca = true ->
  let t := DerivedType_ctor n kps lps tp ca tbp None sz in
  (forall s,
      Initialize t instance s =
      when (existsb (fun c => negb (IsDescriptor c) && needs_component_init c) ca)
           (initialize_components t instance) (zero_filled t instance s)) /\
  (forall s,
      trace (zero_filled t instance s) = trace s ++ [EvMemset instance x00 sz] /\
      read_bytes (mem (zero_filled t instance s)) instance (Z.to_nat sz)
      = repeat x00 (Z.to_nat sz)) /\
  ((forall c, In c ca -> IsDescriptor c = false -> needs_component_init c = false) ->
   forall s, Initialize t instance s = (Returned tt, zero_filled t instance s)).
Proof.
  intros Hno Hdesc t.
  destruct (ctor_fields n kps lps tp ca tbp None sz) as (_ & _ & Hinit & Hbytes & _).
  destruct (ctor_init_bits n kps lps tp ca tbp sz Hno) as (Hi & H3 & H4).
  fold t in Hinit, Hbytes, Hi, H3, H4.
  assert (Hstep : forall s,
      Initialize t instance s =
      when (existsb (fun c => negb (IsDescriptor c) && needs_component_init c) ca)
           (initialize_components t instance) (zero_filled t instance s)).
  { intros s. rewrite Initialize_unfold, Hinit, Hi.
    change (0 <=? -1) with false. cbv iota.
    unfold fill_and_components. rewrite IsInitZero_bit, land_16, H3, H4, Hdesc.
    reflexivity. }
  split; [exact Hstep|]. split.
  - intros s. unfold zero_filled. cbn [trace mem]. rewrite Hbytes.
    split; [reflexivity|apply read_memset].
  - intros Hplain s. rewrite Hstep.
    replace (existsb (fun c => negb (IsDescriptor c) && needs_component_init c) ca)
      with false; [reflexivity|].
    symmetry. apply not_true_is_false. intros E.
    apply existsb_exists in E. destruct E as (c & Hin & Hc).
    apply andb_true_iff in Hc. destruct Hc as [Hd Hn].
    apply negb_true_iff in Hd. rewrite (Hplain c Hin Hd) in Hn. discriminate.
Qed.

(** C6: a type constructed without a flat image, without an
    initializer-flagged procedure, without a descriptor-valued component and
    without a component whose static descriptor carries a nested type that is
    initializable and not purely zero-initializable is initialized by doing
    nothing: Initialize returns with the memory (every byte of the instance
    included) and the trace unchanged. *)
Theorem Initialize_nothing_to_do n kps lps tp ca tbp sz instance s :
  Forall (fun p => is_initializer p = false) tbp ->
  Forall (fun c => IsDescriptor c = false) ca ->
  Forall (fun c => forall ty,
              nestedType c = Some ty ->
              IsInitializable ty && negb (IsInitZero ty) = false) ca ->
  Initialize (DerivedType_ctor n kps lps tp ca tbp None sz) instance s
  = (Returned tt, s).
Proof.
  intros Hno Hdesc Hnested.
  destruct (ctor_fields n kps lps tp ca tbp None sz) as (_ & _ & Hinit & _ & _).
  destruct (ctor_init_bits n kps lps tp ca tbp sz Hno) as (Hi & H3 & H4).
  cbv zeta in Hinit, Hi, H3, H4.
  rewrite Initialize_unfold, Hinit, Hi.
  change (0 <=? -1) with false. cbv iota.
  unfold fill_and_components. rewrite IsInitZero_bit, land_16, H3, H4.
  replace (existsb IsDescriptor ca) with false.
  - replace (existsb (fun c => negb (IsDescriptor c) && needs_component_init c) ca)
      with false; [reflexivity|].
    symmetry. apply not_true_is_false. intros E.
    apply existsb_exists in E. destruct E as (c & Hin & Hc).
    apply andb_true_iff in Hc. destruct Hc as [_ Hn].
    rewrite Forall_forall in Hnested. specialize (Hnested c Hin).
    unfold needs_component_init in Hn.
    destruct (nestedType c) as [ty|]; [|discriminate].
    rewrite (Hnested ty eq_refl) in Hn. discriminate.
  - symmetry. apply not_true_is_false. intros E.
    apply existsb_exists in E. destruct E as (c & Hin & Hc).
    rewrite Forall_forall in Hdesc. rewrite (Hdesc c Hin) in Hc. discriminate.
Qed.

End Properties.

(** *** The parent chain *)

Lemma height_parent t p :
  IsExtension t = true -> parentType t = Some p -> height t = S (height p).
Proof.
  unfold IsExtension, parentType, nestedType.
  destruct t as [nm kp lp tps cs tbps fl im sz itbp].
  destruct cs as [|[cn cf tc [[[[[q|]]|]]|] off] cs]; cbn; intros _ E;
    try discriminate.
  injection E as ->. reflexivity.
Qed.

Lemma ancestors_step t :
  ancestors t =
  if IsExtension t then
    match parentType t with
    | Some p => p :: ancestors p
    | None => []
    end
  else [].
Proof.
  unfold IsExtension, parentType, nestedType.
  destruct t as [nm kp lp tps cs tbps fl im sz itbp].
  destruct cs as [|[cn cf tc [[[[[q|]]|]]|] off] cs]; cbn -[IsParent];
    try reflexivity;
    match goal with |- context [IsParent ?c] => destruct (IsParent c) end;
    reflexivity.
Qed.

Lemma Extends_step same_type a b :
  Extends same_type a b =
  if IsExtension a then
    match parentType a with
    | Some p => same_type p b || Extends same_type p b
    | None => false
    end
  else false.
Proof.
  unfold IsExtension, parentType, nestedType.
  destruct a as [nm kp lp tps cs tbps fl im sz itbp].
  destruct cs as [|[cn cf tc [[[[[q|]]|]]|] off] cs]; cbn -[IsParent];
    try reflexivity;
    match goal with |- context [IsParent ?c] => destruct (IsParent c) end;
    reflexivity.
Qed.

(** A well-formed chain is the type followed by its ancestors. *)
Lemma inheritance_chain_ancestors t l :
  inheritance_chain t l -> l = t :: ancestors t.
Proof.
  induction 1 as [t Hbase | t p l Hext Hp _ IH].
  - rewrite ancestors_step, Hbase. reflexivity.
  - rewrite ancestors_step, Hext, Hp, <- IH. reflexivity.
Qed.

(** C9: A.Extends(B) walks the chain of the parent components' nested types
    of A and is true exactly when that chain contains a type identical to
    B. *)
Theorem Extends_spec same_type a b :
  Extends same_type a b = true <->
  exists t, In t (ancestors a) /\ same_type t b = true.
Proof.
  remember (height a) as h eqn:Hh. revert a Hh.
  induction h as [h IH] using lt_wf_ind. intros a Hh.
  rewrite Extends_step, ancestors_step.
  destruct (IsExtension a) eqn:Hext.
  2:{ split; [discriminate|]. intros (t & [] & _). }
  destruct (parentType a) as [p|] eqn:Hp.
  2:{ split; [discriminate|]. intros (t & [] & _). }
  pose proof (height_parent a p Hext Hp) as Hlt.
  assert (IHp : Extends same_type p b = true <->
                exists t, In t (ancestors p) /\ same_type t b = true).
  { apply (IH (height p)); [lia|reflexivity]. }
  rewrite orb_true_iff, IHp. split.
  - intros [Hs | (t & Hin & Hs)].
    + exists p. split; [left; reflexivity|exact Hs].
    + exists t. split; [right; exact Hin|exact Hs].
  - intros (t & [<- | Hin] & Hs).
    + left. exact Hs.
    + right. exists t. auto.
Qed.

(** C7: on a constructed type, IsFinalizable is true exactly when some
    type-bound procedure has a nonzero per-rank finalizer bitmask or the
    assumed-rank-final flag, and false exactly when every procedure has a
    zero bitmask and the flag clear. *)
Theorem IsFinalizable_ctor n kps lps tp ca tbp init sz :
  let t := DerivedType_ctor n kps lps tp ca tbp init sz in
  (IsFinalizable t = true <-> exists p, In p tbp /\ declares_finalizer p) /\
  (IsFinalizable t = false <->
   forall p, In p tbp -> finalRank p = 0 /\ is_assumed_rank_final p = false).
Proof.
  intros t. subst t. rewrite IsFinalizable_bit, ctor_finalizable_bit.
  assert (Htrue : existsb declares_finalizer_b tbp = true <->
                  exists p, In p tbp /\ declares_finalizer p).
  { rewrite existsb_exists. split; intros (p & Hin & Hp); exists p; split; auto;
      apply declares_finalizer_reflect; exact Hp. }
  split; [exact Htrue|].
  rewrite <- not_true_iff_false, Htrue. split.
  - intros Hnone p Hin. unfold declares_finalizer in Hnone.
    destruct (Z.eq_dec (finalRank p) 0) as [E|E].
    + split; [exact E|].
      destruct (is_assumed_rank_final p) eqn:F; [|reflexivity].
      exfalso. apply Hnone. exists p. auto.
    + exfalso. apply Hnone. exists p. auto.
  - intros Hall (p & Hin & [Hr | Hf]); destruct (Hall p Hin) as [E F].
    + contradiction.
    + rewrite F in Hf. discriminate.
Qed.

(** C8: for a rank r in 0..31, IsFinalForRank(r) is true whenever the
    assumed-rank-final flag is set, and otherwise is bit r of the finalizer
    bitmask; so a bitmask of 1 answers true only for r = 0, and a zero
    bitmask with only the assumed-rank-final flag answers true for every r. *)
Theorem IsFinalForRank_spec p rank :
  0 <= rank <= 31 ->
  (is_assumed_rank_final p = true -> IsFinalForRank p rank = true) /\
  (is_assumed_rank_final p = false -> IsFinalForRank p rank = final_bit p rank) /\
  (is_assumed_rank_final p = false -> finalRank p = 1 ->
   (IsFinalForRank p rank = true <-> rank = 0)) /\
  (flags p = ASSUMED_RANK_FINAL -> finalRank p = 0 -> IsFinalForRank p rank = true).
Proof.
  intros Hr.
  assert (E : IsFinalForRank p rank
              = is_assumed_rank_final p || Z.testbit (finalRank p) rank).
  { unfold IsFinalForRank.
    rewrite assumed_rank_final_flag, shiftr_land_1 by lia. reflexivity. }
  split; [|split; [|split]].
  - intros F. rewrite E, F. reflexivity.
  - intros F. rewrite E, F, final_bit_testbit by lia. reflexivity.
  - intros F R. rewrite E, F, R, testbit_one by lia. cbn [orb]. apply Z.eqb_eq.
  - intros F _. rewrite E. unfold is_assumed_rank_final. rewrite F. reflexivity.
Qed.

(** The two attribute setters leave the finalizable flag alone. *)
Lemma IsFinalizable_setters t :
  IsFinalizable (set_sequence t) = IsFinalizable t /\
  IsFinalizable (set_bind_c t) = IsFinalizable t.
Proof.
  rewrite !IsFinalizable_bit. unfold set_sequence, set_bind_c, with_flags.
  cbn [flags_]. rewrite !Z.lor_spec. split; apply orb_false_r.
Qed.

(* ================================================================== *)
(** ** The properties on the concrete tables *)

Import Examples.
#[local] Existing Instance quiet.

(** The three-level chain of §8: each level's finalizer and component, from
    grandchild to base. *)
Example three_level_chain_trace :
  outcome (DestroyScalarInstance (rt:=quiet) grandchild 100 true) =
  (Returned tt,
   [EvHostCall 1000 100; EvDeallocate 148 true;
    EvHostCall 2000 100; EvDeallocate 124 true;
    EvHostCall 3000 100; EvDeallocate 100 true]).
Proof. vm_compute. reflexivity. Qed.

Lemma three_level_chain : inheritance_chain grandchild [grandchild; child; base].
Proof.
  apply (chain_extends grandchild child); [reflexivity|reflexivity|].
  apply (chain_extends child base); [reflexivity|reflexivity|].
  apply chain_base. reflexivity.
Defined.

Lemma Initialize_flat_image_witness :
  4 = Z.of_nat (List.length [x0a; x0b; x0c; x0d]) /\
  exists s',
    Initialize (rt:=quiet) (set_bind_c imaged) 100 s0 = (Returned tt, s') /\
    trace s' = trace s0 ++ [EvMemcpy 100 [x0a; x0b; x0c; x0d] 4] /\
    read_bytes (mem s') 100 (List.length [x0a; x0b; x0c; x0d])
    = [x0a; x0b; x0c; x0d] /\
    forall a, a < 100 \/ 100 + 4 <= a -> mem s' a = mem s0 a.
Proof.
  split; [reflexivity|].
  apply (Initialize_flat_image (rt:=quiet) "imaged" 0 0 []
           [allocatable "a" 0; nested "p" pair 24]
           [init_proc 500; final_sub "final" 600]
           [x0a; x0b; x0c; x0d] 4 (Z.lor (flags_ imaged) BIND_C) 100 s0).
  reflexivity.
Defined.

Lemma DestroyScalarInstance_unusable_parent_witness :
  component_ orphan = [mkComponent "parent" PARENT 0 None 0] /\
  IsParent (mkComponent "parent" PARENT 0 None 0) = true /\
  exists check,
    (check = "staticParentDescriptor"%string \/ check = "parentAddendum"%string \/
     check = "parentType"%string) /\
    meq (DestroyScalarInstance (rt:=quiet) orphan 100 true)
        (destroy_level 100 true orphan ;; CheckFailed check) /\
    forall s, exists c s',
      DestroyScalarInstance (rt:=quiet) orphan 100 true s = (Crashed c, s').
Proof.
  split; [reflexivity|]. split; [reflexivity|].
  apply (DestroyScalarInstance_unusable_parent (rt:=quiet) orphan
           (mkComponent "parent" PARENT 0 None 0) [] 100 true).
  - reflexivity.
  - reflexivity.
  - left. reflexivity.
Defined.

Lemma Initialize_initializer_procedure_witness :
  filter is_initializer [final_sub "final" 600; init_proc 500] = [init_proc 500] /\
  meq (Initialize (rt:=quiet) (with_init 500) 100)
      (if host (code (init_proc 500)) =? 0 then ret tt
       else call_host (host (code (init_proc 500))) 100).
Proof.
  split; [reflexivity|].
  apply (Initialize_initializer_procedure (rt:=quiet) "with_init" 0 0 []
           [allocatable "a" 0] [final_sub "final" 600; init_proc 500]
           (init_proc 500) 24 100).
  reflexivity.
Defined.

Lemma Initialize_zero_fill_witness :
  Forall (fun p => is_initializer p = false) [final_sub "final" 700] /\
  existsb IsDescriptor [allocatable "a" 0; nested "p" pair 2] = true /\
  let t := DerivedType_ctor "mixed" 0 0 [] [allocatable "a" 0; nested "p" pair 2]
                            [final_sub "final" 700] None 4 in
  (forall s,
      Initialize t 100 s =
      when (existsb (fun c => negb (IsDescriptor c) && needs_component_init c)
                    [allocatable "a" 0; nested "p" pair 2])
           (initialize_components t 100) (zero_filled t 100 s)) /\
  (forall s,
      trace (zero_filled t 100 s) = trace s ++ [EvMemset 100 x00 4] /\
      read_bytes (mem (zero_filled t 100 s)) 100 (Z.to_nat 4)
      = repeat x00 (Z.to_nat 4)) /\
  ((forall c, In c [allocatable "a" 0; nested "p" pair 2] ->
              IsDescriptor c = false -> needs_component_init c = false) ->
   forall s, Initialize t 100 s = (Returned tt, zero_filled t 100 s)).
Proof.
  assert (Hno : Forall (fun p => is_initializer p = false) [final_sub "final" 700])
    by (repeat constructor).
  split; [exact Hno|]. split; [reflexivity|].
  apply (Initialize_zero_fill (rt:=quiet) "mixed" 0 0 []
           [allocatable "a" 0; nested "p" pair 2] [final_sub "final" 700] 4 100).
  - exact Hno.
  - reflexivity.
Defined.

Lemma plain_outer_nested_types :
  Forall (fun c => forall ty,
              nestedType c = Some ty ->
              IsInitializable ty && negb (IsInitZero ty) = false)
         [mkComponent "x" PRIVATE 0 None 0; nested "n" plain 4; nested "h" holder 8].
Proof.
  repeat constructor; intros ty E; cbv in E.
  - discriminate.
  - injection E as <-. reflexivity.
  - injection E as <-. reflexivity.
Defined.

Lemma Initialize_nothing_to_do_witness :
  Forall (fun p => is_initializer p = false) [final_sub "final" 700] /\
  Forall (fun c => IsDescriptor c = false)
         [mkComponent "x" PRIVATE 0 None 0; nested "n" plain 4; nested "h" holder 8] /\
  Initialize (rt:=quiet) plain_outer 100 s0 = (Returned tt, s0).
Proof.
  assert (Hno : Forall (fun p => is_initializer p = false) [final_sub "final" 700])
    by (repeat constructor).
  assert (Hdesc : Forall (fun c => IsDescriptor c = false)
            [mkComponent "x" PRIVATE 0 None 0; nested "n" plain 4; nested "h" holder 8])
    by (repeat constructor).
  split; [exact Hno|]. split; [exact Hdesc|].
  apply (Initialize_nothing_to_do (rt:=quiet) "plain_outer" 0 0 []
           [mkComponent "x" PRIVATE 0 None 0; nested "n" plain 4; nested "h" holder 8]
           [final_sub "final" 700] 12 100 s0 Hno Hdesc plain_outer_nested_types).
Defined.

Lemma IsFinalForRank_spec_witness :
  0 <= 31 <= 31 /\
  (is_assumed_rank_final final_rank31 = true ->
   IsFinalForRank final_rank31 31 = true) /\
  (is_assumed_rank_final final_rank31 = false ->
   IsFinalForRank final_rank31 31 = final_bit final_rank31 31) /\
  (is_assumed_rank_final final_rank31 = false -> finalRank final_rank31 = 1 ->
   (IsFinalForRank final_rank31 31 = true <-> 31 = 0)) /\
  (flags final_rank31 = ASSUMED_RANK_FINAL -> finalRank final_rank31 = 0 ->
   IsFinalForRank final_rank31 31 = true).
Proof.
  split; [lia|].
  apply (IsFinalForRank_spec final_rank31 31). lia.
Defined.

(** The representative values of §8: ranks 0, 1 and 31 against the bitmasks
    1, 2, 2^31 and 0, with and without the assumed-rank-final flag. *)
Example IsFinalForRank_values :
  map (IsFinalForRank (mkTypeBoundProcedure 0 1 "f" no_code)) [0; 1; 31]
    = [true; false; false] /\
  map (IsFinalForRank (mkTypeBoundProcedure ELEMENTAL 2 "f" no_code)) [0; 1; 31]
    = [false; true; false] /\
  map (IsFinalForRank final_rank31) [0; 1; 31] = [false; false; true] /\
  map (IsFinalForRank (mkTypeBoundProcedure ASSUMED_RANK_FINAL 0 "f" no_code))
      [0; 1; 31] = [true; true; true] /\
  map (IsFinalForRank (mkTypeBoundProcedure 0 0 "f" no_code)) [0; 1; 31]
    = [false; false; false].
Proof. vm_compute. repeat split. Qed.

(** C4, as worded, fails: [with_init 0] has no flat image and exactly one
    initializer-flagged procedure, whose host entry point is null;
    Initialize performs no call at all. *)
Lemma initializer_without_host_entry_not_invoked :
  initializer_ (with_init 0) = None /\
  filter is_initializer (typeBoundProcedure_ (with_init 0)) = [init_proc 0] /\
  outcome (Initialize (rt:=quiet) (with_init 0) 100) = (Returned tt, []) /\
  ~ meq (Initialize (rt:=quiet) (with_init 0) 100)
        (call_host (rt:=quiet) (host (code (init_proc 0))) 100).
Proof.
  split; [reflexivity|]. split; [reflexivity|]. split; [reflexivity|].
  intros H. specialize (H s0).
  apply (f_equal (fun r => trace (snd r))) in H. vm_compute in H. discriminate.
Qed.

(** C5, as worded, fails: [mixed] has no flat image, no initializer
    procedure and a descriptor-valued component, yet after Initialize the
    instance is not all zero, because the component of type [pair] is
    initialized from its image after the zero-fill. *)
Lemma zero_fill_then_component_init :
  initializer_ mixed = None /\
  filter is_initializer (typeBoundProcedure_ mixed) = [] /\
  existsb IsDescriptor (component_ mixed) = true /\
  outcome (Initialize (rt:=quiet) mixed 100)
    = (Returned tt, [EvMemset 100 x00 4; EvMemcpy 102 [x01; x02] 2]) /\
  read_bytes (mem (snd (Initialize (rt:=quiet) mixed 100 s0))) 100
             (Z.to_nat (bytes_ mixed))
    = [x00; x00; x01; x02] /\
  read_bytes (mem (snd (Initialize (rt:=quiet) mixed 100 s0))) 100
             (Z.to_nat (bytes_ mixed))
    <> repeat x00 (Z.to_nat (bytes_ mixed)).
Proof.
  repeat (split; [reflexivity|]).
  vm_compute. discriminate.
Qed.

Lemma Initialize_last_flagged_initializer_witness :
  is_initializer (init_proc 800) = true /\
  Forall (fun q => is_initializer q = false) [final_sub "last" 900] /\
  initTBP_ (two_inits 800) = Z.of_nat (List.length [init_proc 500; final_sub "final" 600]) /\
  nth_error ([init_proc 500; final_sub "final" 600]
             ++ init_proc 800 :: [final_sub "last" 900])
            (List.length [init_proc 500; final_sub "final" 600])
  = Some (init_proc 800) /\
  meq (Initialize (rt:=quiet) (two_inits 800) 100)
      (if host (code (init_proc 800)) =? 0 then ret tt
       else call_host (host (code (init_proc 800))) 100).
Proof.
  assert (Hpost : Forall (fun q => is_initializer q = false) [final_sub "last" 900])
    by (repeat constructor).
  split; [reflexivity|]. split; [exact Hpost|].
  apply (Initialize_last_flagged_initializer (rt:=quiet) "two_inits" 0 0 []
           [allocatable "a" 0] [init_proc 500; final_sub "final" 600]
           (init_proc 800) [final_sub "last" 900] None 24 100).
  - reflexivity.
  - exact Hpost.
Defined.

(** With two flagged procedures only the last one is called. *)
Example two_initializers_trace :
  outcome (Initialize (rt:=quiet) (two_inits 800) 100)
  = (Returned tt, [EvHostCall 800 100]).
Proof. reflexivity. Qed.

(** C10, as worded, fails: the last initializer-flagged procedure of
    [two_inits 0] has no host entry point; Initialize invokes neither it nor
    the earlier one. *)
Lemma last_initializer_without_host_entry_not_invoked :
  initializer_ (two_inits 0) = None /\
  filter is_initializer (typeBoundProcedure_ (two_inits 0))
    = [init_proc 500; init_proc 0] /\
  initTBP_ (two_inits 0) = 2 /\
  outcome (Initialize (rt:=quiet) (two_inits 0) 100) = (Returned tt, []) /\
  ~ meq (Initialize (rt:=quiet) (two_inits 0) 100)
        (call_host (rt:=quiet) (host (code (init_proc 0))) 100).
Proof.
  split; [reflexivity|]. split; [reflexivity|]. split; [reflexivity|].
  split; [reflexivity|].
  intros H. specialize (H s0).
  apply (f_equal (fun r => trace (snd r))) in H. vm_compute in H. discriminate.
Qed.

(** On the three-level chain, with types identified by name. *)
Example Extends_three_levels :
  Extends same_name grandchild child = true /\
  Extends same_name grandchild base = true /\
  Extends same_name child base = true /\
  Extends same_name grandchild grandchild = false /\
  Extends same_name base grandchild = false /\
  Extends same_name orphan base = false.
Proof. vm_compute. repeat split. Qed.

(* ================================================================== *)
(** ** Traces and normal return *)

Lemma emits_meq Q (m1 m2 : M unit) : meq m1 m2 -> emits Q m2 -> emits Q m1.
Proof. intros E H s. rewrite E. apply H. Qed.

Lemma emits_ret Q : emits Q (ret tt).
Proof. intros s. exists []. split; [symmetry; apply app_nil_r|constructor]. Qed.

Lemma emits_CheckFailed Q c : emits Q (CheckFailed c).
Proof. intros s. exists []. split; [symmetry; apply app_nil_r|constructor]. Qed.

Lemma emits_bind Q (m1 m2 : M unit) :
  emits Q m1 -> emits Q m2 -> emits Q (m1 ;; m2).
Proof.
  intros H1 H2 s. unfold bind.
  destruct (H1 s) as (e1 & E1 & F1).
  destruct (m1 s) as [[[]|c] s1]; cbn [snd] in *.
  - destruct (H2 s1) as (e2 & E2 & F2). exists (e1 ++ e2).
    rewrite E2, E1, app_assoc. split; [reflexivity|].
    apply Forall_app. split; assumption.
  - exists e1. split; assumption.
Qed.

Lemma emits_when Q b (m : M unit) : (b = true -> emits Q m) -> emits Q (when b m).
Proof. destruct b; intros H; [apply H; reflexivity|apply emits_ret]. Qed.

Lemma emits_for_each {A} Q (f : A -> M unit) l :
  (forall x, In x l -> emits Q (f x)) -> emits Q (for_each f l).
Proof.
  induction l as [|x l IH]; intros H; cbn [for_each]; [apply emits_ret|].
  apply emits_bind; [apply H; left; reflexivity|].
  apply IH. intros y Hy. apply H. right. exact Hy.
Qed.

Lemma emits_memcpy (Q : Event -> Prop) dst src n :
  Q (EvMemcpy dst src n) -> emits Q (memcpy dst src n).
Proof. intros H s. exists [EvMemcpy dst src n]. split; [reflexivity|auto]. Qed.

Lemma emits_memset (Q : Event -> Prop) dst c n :
  Q (EvMemset dst c n) -> emits Q (memset dst c n).
Proof. intros H s. exists [EvMemset dst c n]. split; [reflexivity|auto]. Qed.

(** A sequence that returns has returned from its first part, and its second
    part has returned from the state reached there. *)
Lemma bind_returned (m1 m2 : M unit) s s' :
  (m1 ;; m2) s = (Returned tt, s') ->
  exists s1, m1 s = (Returned tt, s1) /\ m2 s1 = (Returned tt, s').
Proof.
  unfold bind. destruct (m1 s) as [[[]|c] s1]; intros H; [|discriminate].
  exists s1. split; [reflexivity|exact H].
Qed.

Lemma for_each_returned {A} (f : A -> M unit) l s s' :
  for_each f l s = (Returned tt, s') ->
  forall x, In x l -> exists sx sx', f x sx = (Returned tt, sx').
Proof.
  revert s. induction l as [|y l IH]; intros s H x Hin; [destruct Hin|].
  cbn [for_each] in H. apply bind_returned in H. destruct H as (s1 & Hy & Hl).
  destruct Hin as [<-|Hin]; [eauto|]. exact (IH s1 Hl x Hin).
Qed.

(** Induction on a type description with the nested types of all its
    components as induction hypotheses. *)
Lemma nested_type_ind (P : DerivedType -> Prop) :
  (forall t,
      (forall c ty, In c (component_ t) -> nestedType c = Some ty -> P ty) -> P t) ->
  forall t, P t.
Proof.
  intros H. fix IH 1. intros [nm kp lp tps cs tbps fl im sz itbp].
  apply H. cbn [component_].
  induction cs as [|c cs IHcs].
  - intros c ty [].
  - intros c' ty [<-|Hin] Hn.
    + destruct c as [cn cf tc [[[[[q|]]|]]|] off]; cbn in Hn; try discriminate.
      injection Hn as <-. apply IH.
    + exact (IHcs c' ty Hin Hn).
Qed.

Lemma parent_in_components t p :
  parentType t = Some p ->
  exists c, In c (component_ t) /\ nestedType c = Some p.
Proof.
  unfold parentType. destruct (component_ t) as [|c0 rest]; [discriminate|].
  intros H. exists c0. split; [left; reflexivity|exact H].
Qed.

Section FurtherProperties.
Context {rt : Runtime}.

Lemma emits_call_host (Q : Event -> Prop) entry instance :
  Q (EvHostCall entry instance) -> emits Q (call_host entry instance).
Proof. intros H s. exists [EvHostCall entry instance]. split; [reflexivity|auto]. Qed.

Lemma emits_Deallocate (Q : Event -> Prop) descriptor finalize :
  Q (EvDeallocate descriptor finalize) -> emits Q (Deallocate descriptor finalize).
Proof.
  intros H s. exists [EvDeallocate descriptor finalize]. split; [reflexivity|auto].
Qed.

(** [Initialize] in terms of a property [R] of operations that is kept by
    sequencing. *)
Lemma Initialize_by_cases (R : M unit -> Prop) :
  (forall m1 m2, meq m1 m2 -> R m2 -> R m1) ->
  R (ret tt) ->
  (forall m1 m2, R m1 -> R m2 -> R (m1 ;; m2)) ->
  (forall dst src n, R (memcpy dst src n)) ->
  (forall dst n, R (memset dst x00 n)) ->
  (forall entry instance, entry <> 0 -> R (call_host entry instance)) ->
  forall t instance, R (Initialize t instance).
Proof.
  intros Rmeq Rret Rbind Rcpy Rset Rcall t.
  assert (Rwhen : forall b m, R m -> R (when b m))
    by (intros [] m Hm; [exact Hm|exact Rret]).
  assert (Reach : forall (f : Component -> M unit) l,
             (forall c, In c l -> R (f c)) -> R (for_each f l)).
  { intros f l. induction l as [|c l IHl]; intros Hf; cbn [for_each]; [exact Rret|].
    apply Rbind; [apply Hf; left; reflexivity|].
    apply IHl. intros c' Hc'. apply Hf. right. exact Hc'. }
  induction t as [t IH] using nested_type_ind. intros instance.
  apply (Rmeq _ _ (Initialize_unfold t instance)).
  assert (Hfill : R (fill_and_components t instance)).
  { unfold fill_and_components. apply Rbind; apply Rwhen; [apply Rset|].
    unfold initialize_components. apply Reach. intros c Hc.
    destruct (nestedType c) as [ty|] eqn:Hn; [|exact Rret].
    apply (IH c ty Hc Hn). }
  destruct (initializer_ t) as [image|]; [apply Rcpy|].
  destruct (0 <=? initTBP_ t); [|exact Hfill].
  destruct (nth_error (typeBoundProcedure_ t) (Z.to_nat (initTBP_ t))) as [p|];
    [|exact Hfill].
  destruct (nonzero (host (code p))) eqn:Hh; [|exact Hfill].
  apply Rcall. apply nonzero_true. exact Hh.
Qed.

(** X2: Initialize only appends to the trace, and each of its actions, nested
    components included, is a copy of a flat image, a fill with zero bytes or
    a call of a non-null host entry point; it never deallocates. *)
Theorem Initialize_events t instance :
  emits initialize_event (Initialize t instance).
Proof.
  apply Initialize_by_cases.
  - apply emits_meq.
  - apply emits_ret.
  - apply emits_bind.
  - intros. apply emits_memcpy. exact I.
  - intros. apply emits_memset. reflexivity.
  - intros entry instance' H. apply emits_call_host. exact H.
Qed.

Lemma run_scalar_finalizers_events t instance finalize :
  emits (destroy_event finalize) (run_scalar_finalizers t instance finalize).
Proof.
  unfold run_scalar_finalizers. apply emits_when. intros Hb.
  apply andb_true_iff in Hb. destruct Hb as [Hfin _].
  apply emits_for_each. intros p Hp. apply filter_In in Hp. destruct Hp as [_ Hp].
  apply emits_call_host. split; [exact Hfin|].
  unfold is_scalar_finalizer in Hp. apply andb_true_iff in Hp. destruct Hp as [_ Hh].
  apply negb_true_iff, Z.eqb_neq in Hh. exact Hh.
Qed.

(** X3: every action of DestroyScalarInstance -- in the type itself, in its
    nested components and in its ancestors, also on a run that ends in the
    fatal diagnostic -- is a deallocation that carries the caller's finalize
    flag or, only when finalize is true, a call of a non-null host entry
    point.  In particular with finalize = false no procedure is invoked, and
    the operation itself never copies or fills memory. *)
Theorem DestroyScalarInstance_events t finalize instance :
  emits (destroy_event finalize) (DestroyScalarInstance t instance finalize).
Proof.
  revert instance. induction t as [t IH] using nested_type_ind. intros instance.
  apply (emits_meq _ _ _ (DestroyScalarInstance_level t instance finalize)).
  apply emits_bind; [unfold destroy_level; apply emits_bind|].
  - apply run_scalar_finalizers_events.
  - apply emits_for_each. intros c Hc. apply filter_In in Hc. destruct Hc as [Hc _].
    unfold destroy_non_parent.
    destruct (IsDescriptor c); [apply emits_Deallocate; reflexivity|].
    destruct (nestedType c) as [ty|] eqn:Hn; [|apply emits_ret].
    apply (IH c ty Hc Hn).
  - unfold destroy_parent. destruct (IsExtension t); [|apply emits_ret].
    destruct (parentType t) as [p|] eqn:Hp; [|apply emits_CheckFailed].
    destruct (parent_in_components t p Hp) as (c & Hc & Hn).
    apply (IH c p Hc Hn).
Qed.

(* ------------------------------------------------------------------ *)
(** *** Which finalizers run *)

Lemma filter_none {A} (f : A -> bool) l :
  (forall x, In x l -> f x = false) -> filter f l = [].
Proof.
  induction l as [|x l IH]; intros H; cbn [filter]; [reflexivity|].
  rewrite (H x) by (left; reflexivity).
  apply IH. intros y Hy. apply H. right. exact Hy.
Qed.

Lemma no_rank0_no_scalar_finalizer t :
  (forall p, In p (typeBoundProcedure_ t) -> Z.testbit (finalRank p) 0 = false) ->
  filter is_scalar_finalizer (typeBoundProcedure_ t) = [].
Proof.
  intros H. apply filter_none. intros p Hp. unfold is_scalar_finalizer.
  rewrite final_bit_testbit, (H p Hp) by lia.
  rewrite andb_false_r. reflexivity.
Qed.

(** X5: DestroyScalarInstance selects finalizers by bit 0 of the bitmask alone:
    when no procedure of the type has that bit, no procedure is invoked at
    this level, whatever the flags are -- although a procedure with the
    assumed-rank-final flag answers true to IsFinalForRank(0). *)
Theorem DestroyScalarInstance_ignores_assumed_rank t instance finalize :
  (forall p, In p (typeBoundProcedure_ t) -> Z.testbit (finalRank p) 0 = false) ->
  meq (DestroyScalarInstance t instance finalize)
      (DestroyNonParentComponents t instance finalize ;;
       destroy_parent t instance finalize) /\
  (forall p, In p (typeBoundProcedure_ t) ->
             is_assumed_rank_final p = true -> IsFinalForRank p 0 = true).
Proof.
  intros H. split.
  - rewrite DestroyScalarInstance_unfold.
    eapply meq_trans; [|apply bind_ret_l].
    apply bind_meq; [|intros _; apply meq_refl].
    eapply meq_trans; [apply finalizers_loop|].
    unfold run_scalar_finalizers. rewrite (no_rank0_no_scalar_finalizer t H).
    intros s. destruct (finalize && IsFinalizable t); reflexivity.
  - intros p _ Hp. unfold IsFinalForRank.
    rewrite assumed_rank_final_flag, Hp. reflexivity.
Qed.

(** X6: on a constructed type the finalizable flag never hides a finalizer:
    with finalize = true DestroyScalarInstance invokes, in table order, the
    elemental procedures with bit 0 set and a host entry point, without any
    further condition, then destroys the components and the parent. *)
Theorem DestroyScalarInstance_ctor_finalizers
    n kps lps tp ca tbp init sz instance :
  let t := DerivedType_ctor n kps lps tp ca tbp init sz in
  meq (DestroyScalarInstance t instance true)
      (for_each (fun p => call_host (host (code p)) instance)
                (filter is_scalar_finalizer tbp) ;;
       DestroyNonParentComponents t instance true ;;
       destroy_parent t instance true).
Proof.
  intros t. rewrite DestroyScalarInstance_unfold.
  apply bind_meq; [|intros _; apply meq_refl].
  eapply meq_trans; [apply finalizers_loop|].
  unfold run_scalar_finalizers.
  destruct (ctor_fields n kps lps tp ca tbp init sz) as (_ & Htbp & _).
  fold t in Htbp. rewrite Htbp. cbn [andb].
  destruct (IsFinalizable t) eqn:Hf; [apply meq_refl|].
  subst t. rewrite IsFinalizable_bit, ctor_finalizable_bit in Hf.
  rewrite filter_none; [apply meq_refl|].
  intros p Hp. unfold is_scalar_finalizer.
  assert (Hd : declares_finalizer_b p = false).
  { destruct (declares_finalizer_b p) eqn:E; [|reflexivity].
    assert (Hex : existsb declares_finalizer_b tbp = true)
      by (apply existsb_exists; exists p; auto).
    rewrite Hex in Hf. discriminate. }
  unfold declares_finalizer_b in Hd. apply orb_false_elim in Hd.
  destruct Hd as [Hr _]. apply nonzero_false in Hr.
  rewrite final_bit_testbit, Hr by lia. cbn. rewrite andb_false_r. reflexivity.
Qed.

(* ------------------------------------------------------------------ *)
(** *** The flag word and the operations *)

Lemma land_init_flags f :
  nonzero (Z.land f (Z.lor INIT_ZERO INIT_COMPONENT)) = Z.testbit f 3 || Z.testbit f 4.
Proof.
  change (Z.lor INIT_ZERO INIT_COMPONENT) with 24.
  assert (B : forall n, 0 <= n -> Z.testbit 24 n = (n =? 3) || (n =? 4)).
  { intros n Hn. change 24 with (Z.lor (2 ^ 3) (2 ^ 4)).
    rewrite Z.lor_spec, !Z.pow2_bits_eqb by lia.
    rewrite (Z.eqb_sym 3 n), (Z.eqb_sym 4 n). reflexivity. }
  destruct (Z.testbit f 3 || Z.testbit f 4) eqn:E.
  - apply nonzero_true. intros H0.
    assert (H3 : Z.testbit (Z.land f 24) 3 = Z.testbit f 3)
      by (rewrite Z.land_spec, B by lia; apply andb_true_r).
    assert (H4 : Z.testbit (Z.land f 24) 4 = Z.testbit f 4)
      by (rewrite Z.land_spec, B by lia; apply andb_true_r).
    rewrite H0, Z.bits_0 in H3, H4. rewrite <- H3, <- H4 in E. discriminate.
  - apply orb_false_elim in E. destruct E as [E3 E4].
    apply nonzero_false. apply Z.bits_inj'. intros n Hn.
    rewrite Z.land_spec, Z.bits_0, B by exact Hn.
    destruct (Z.eqb_spec n 3) as [->|_]; [rewrite E3; reflexivity|].
    destruct (Z.eqb_spec n 4) as [->|_]; [rewrite E4; reflexivity|].
    apply andb_false_r.
Qed.

Lemma IsInitializable_bits t :
  IsInitializable t =
  isSome (initializer_ t) || (0 <=? initTBP_ t)
  || (Z.testbit (flags_ t) 3 || Z.testbit (flags_ t) 4).
Proof. unfold IsInitializable. rewrite land_init_flags. reflexivity. Qed.

(** The operations read bits 2, 3 and 4 of the flag word and nothing else
    of it. *)
Lemma with_flags_operations t f instance finalize :
  Z.testbit f 2 = Z.testbit (flags_ t) 2 ->
  Z.testbit f 3 = Z.testbit (flags_ t) 3 ->
  Z.testbit f 4 = Z.testbit (flags_ t) 4 ->
  meq (Initialize (with_flags t f) instance) (Initialize t instance) /\
  meq (DestroyScalarInstance (with_flags t f) instance finalize)
      (DestroyScalarInstance t instance finalize).
Proof.
  intros H2 H3 H4. split.
  - eapply meq_trans; [apply Initialize_unfold|].
    eapply meq_trans; [|apply meq_sym, Initialize_unfold].
    assert (F : fill_and_components (with_flags t f) instance
                = fill_and_components t instance).
    { unfold fill_and_components, initialize_components.
      rewrite !IsInitZero_bit, !land_16.
      cbn [with_flags flags_ component_ bytes_]. rewrite H3, H4. reflexivity. }
    rewrite F. cbn [with_flags initializer_ bytes_ initTBP_ typeBoundProcedure_].
    apply meq_refl.
  - rewrite !DestroyScalarInstance_unfold, !IsFinalizable_bit.
    unfold DestroyNonParentComponents, destroy_parent, IsExtension, parentType,
      failed_parent_check.
    cbn [with_flags flags_ component_ typeBoundProcedure_]. rewrite H2.
    apply meq_refl.
Qed.

(** X7: set_sequence and set_bind_c each set their own attribute and leave
    the other one and the finalizable, zero-init, initializable and extension
    answers as they were. *)
Theorem setters_attributes t :
  (IsSequence (set_sequence t) = true /\ IsBindC (set_bind_c t) = true /\
   IsBindC (set_sequence t) = IsBindC t /\
   IsSequence (set_bind_c t) = IsSequence t) /\
  (forall u, u = set_sequence t \/ u = set_bind_c t ->
     IsFinalizable u = IsFinalizable t /\ IsInitZero u = IsInitZero t /\
     IsInitializable u = IsInitializable t /\ IsExtension u = IsExtension t).
Proof.
  split.
  - unfold IsSequence, IsBindC, set_sequence, set_bind_c, with_flags.
    cbn [flags_]. rewrite !land_1, !land_2, !Z.lor_spec.
    repeat split; try reflexivity; try apply orb_true_r; apply orb_false_r.
  - intros u [-> | ->];
      rewrite !IsFinalizable_bit, !IsInitZero_bit, !IsInitializable_bits;
      unfold IsExtension, set_sequence, set_bind_c, with_flags;
      cbn [flags_ component_ initializer_ initTBP_]; rewrite !Z.lor_spec;
      cbn [Z.testbit Pos.testbit SEQUENCE BIND_C]; rewrite !orb_false_r; auto.
Qed.

(** X8: the attribute setters do not change what Initialize and
    DestroyScalarInstance do. *)
Theorem setters_keep_operations t instance finalize :
  meq (Initialize (set_sequence t) instance) (Initialize t instance) /\
  meq (Initialize (set_bind_c t) instance) (Initialize t instance) /\
  meq (DestroyScalarInstance (set_sequence t) instance finalize)
      (DestroyScalarInstance t instance finalize) /\
  meq (DestroyScalarInstance (set_bind_c t) instance finalize)
      (DestroyScalarInstance t instance finalize).
Proof.
  assert (S : forall k, k = 2 \/ k = 3 \/ k = 4 ->
                Z.testbit (Z.lor (flags_ t) SEQUENCE) k = Z.testbit (flags_ t) k).
  { intros k [-> | [-> | ->]]; rewrite Z.lor_spec; apply orb_false_r. }
  assert (B : forall k, k = 2 \/ k = 3 \/ k = 4 ->
                Z.testbit (Z.lor (flags_ t) BIND_C) k = Z.testbit (flags_ t) k).
  { intros k [-> | [-> | ->]]; rewrite Z.lor_spec; apply orb_false_r. }
  destruct (with_flags_operations t (Z.lor (flags_ t) SEQUENCE) instance finalize)
    as [I1 D1]; [apply S; auto..|].
  destruct (with_flags_operations t (Z.lor (flags_ t) BIND_C) instance finalize)
    as [I2 D2]; [apply B; auto..|].
  repeat split; assumption.
Qed.

Lemma Initialize_not_initializable t instance :
  IsInitializable t = false -> meq (Initialize t instance) (ret tt).
Proof.
  rewrite IsInitializable_bits. intros H.
  apply orb_false_elim in H. destruct H as [H H34].
  apply orb_false_elim in H. destruct H as [Hinit Hi].
  apply orb_false_elim in H34. destruct H34 as [H3 H4].
  eapply meq_trans; [apply Initialize_unfold|].
  destruct (initializer_ t); [discriminate|]. rewrite Hi.
  unfold fill_and_components. rewrite IsInitZero_bit, land_16, H3, H4.
  intros s. reflexivity.
Qed.

(** X9: IsInitializable is a sound gate for Initialize on every type
    description: when it answers false, Initialize performs no action at all
    and leaves memory and trace as they are. *)
Theorem not_initializable_no_action t instance :
  IsInitializable t = false -> meq (Initialize t instance) (ret tt).
Proof. apply Initialize_not_initializable. Qed.

(* ------------------------------------------------------------------ *)
(** *** The device entry points *)

Lemma scan_procedures_with_device d j l acc :
  scan_procedures j (map (with_device d) l) acc = scan_procedures j l acc.
Proof.
  revert j acc. induction l as [|p l IH]; intros j [i f]; cbn [map scan_procedures];
    [reflexivity|].
  rewrite IH. reflexivity.
Qed.

Lemma for_each_map {A B} (g : A -> B) (f : B -> M unit) l :
  for_each f (map g l) = for_each (fun x => f (g x)) l.
Proof.
  induction l as [|x l IH]; cbn [map for_each]; [reflexivity|].
  rewrite IH. reflexivity.
Qed.

(** X10: the operations never look at [ExecutableCode::device]: replacing the
    device entry points of a type's procedures changes neither the flags and
    the cached initializer index that the constructor computes nor what
    Initialize and DestroyScalarInstance do. *)
Theorem device_entry_unused d n kps lps tp ca tbp init sz instance finalize :
  let t := DerivedType_ctor n kps lps tp ca tbp init sz in
  let t' := DerivedType_ctor n kps lps tp ca (map (with_device d) tbp) init sz in
  flags_ t' = flags_ t /\ initTBP_ t' = initTBP_ t /\
  meq (Initialize t' instance) (Initialize t instance) /\
  meq (DestroyScalarInstance t' instance finalize)
      (DestroyScalarInstance t instance finalize).
Proof.
  intros t t'.
  destruct (ctor_fields n kps lps tp ca tbp init sz)
    as (Hc & Hp & Hinit & Hb & Hi).
  destruct (ctor_fields n kps lps tp ca (map (with_device d) tbp) init sz)
    as (Hc' & Hp' & Hinit' & Hb' & Hi').
  fold t in Hc, Hp, Hinit, Hb, Hi. fold t' in Hc', Hp', Hinit', Hb', Hi'.
  rewrite scan_procedures_with_device in Hi'.
  assert (Hfl : flags_ t' = flags_ t).
  { subst t t'. rewrite !ctor_flags, scan_procedures_with_device. reflexivity. }
  split; [exact Hfl|]. split; [congruence|]. split.
  - eapply meq_trans; [apply Initialize_unfold|].
    eapply meq_trans; [|apply meq_sym, Initialize_unfold].
    assert (F : fill_and_components t' instance = fill_and_components t instance).
    { unfold fill_and_components, initialize_components, IsInitZero.
      rewrite Hfl, Hc', Hc, Hb', Hb. reflexivity. }
    rewrite F, Hinit', Hinit, Hb', Hb, Hi', Hi, Hp', Hp, nth_error_map.
    destruct (nth_error tbp (Z.to_nat (fst (scan_procedures 0 tbp (-1, 0)))));
      apply meq_refl.
  - rewrite !DestroyScalarInstance_unfold.
    unfold DestroyNonParentComponents, destroy_parent, IsExtension, parentType,
      failed_parent_check, IsFinalizable.
    rewrite Hfl, Hc', Hc, Hp', Hp, for_each_map. apply meq_refl.
Qed.

End FurtherProperties.

(* ================================================================== *)
(** ** What the constructor establishes *)

(** Either no procedure is flagged initializer, or there is a last one. *)
Lemma last_initializer_split (l : list TypeBoundProcedure) :
  Forall (fun p => is_initializer p = false) l \/
  exists pre p post,
    l = pre ++ p :: post /\ is_initializer p = true /\
    Forall (fun q => is_initializer q = false) post.
Proof.
  induction l as [|a l IH]; [left; constructor|].
  destruct IH as [Hall | (pre & p & post & -> & Hp & Hpost)].
  - destruct (is_initializer a) eqn:Ha.
    + right. exists [], a, l. auto.
    + left. constructor; assumption.
  - right. exists (a :: pre), p, post. auto.
Qed.

Lemma element_app_middle {A} (pre : list A) x post :
  element (pre ++ x :: post) (Z.of_nat (List.length pre)) = Some x.
Proof.
  unfold element.
  replace (Z.of_nat (List.length pre) <? 0) with false
    by (symmetry; apply Z.ltb_ge; lia).
  rewrite Nat2Z.id, nth_error_app2, Nat.sub_diag by lia. reflexivity.
Qed.

(** X11: the cached initializer index of a constructed type is -1 or a valid
    index: it is -1 exactly when no procedure is flagged initializer, and
    otherwise it lies inside the table and names a procedure flagged
    initializer, so the table access of Initialize stays in bounds. *)
Theorem ctor_initTBP_in_range n kps lps tp ca tbp init sz :
  let i := initTBP_ (DerivedType_ctor n kps lps tp ca tbp init sz) in
  -1 <= i < Z.of_nat (List.length tbp) /\
  (i = -1 <-> Forall (fun p => is_initializer p = false) tbp) /\
  (0 <= i -> exists p, element tbp i = Some p /\ is_initializer p = true).
Proof.
  intros i. subst i.
  destruct (last_initializer_split tbp) as [Hall | (pre & p & post & -> & Hp & Hpost)].
  - destruct (ctor_fields n kps lps tp ca tbp init sz) as (_ & _ & _ & _ & Hi).
    cbv zeta in Hi. rewrite Hi, scan_procedures_no_initializer by exact Hall.
    cbn [fst]. split; [lia|]. split; [tauto|]. intros H. lia.
  - rewrite ctor_initTBP_last by assumption. rewrite length_app. cbn [List.length].
    split; [lia|]. split.
    + split; [lia|]. intros Hall. apply Forall_app in Hall. destruct Hall as [_ Hall].
      inversion Hall as [|? ? Hp' _]; subst. congruence.
    + intros _. exists p. split; [apply element_app_middle|exact Hp].
Qed.

Lemma testbit_FINALIZABLE_or_0 (b : bool) k :
  Z.testbit (if b then Z.lor 0 FINALIZABLE else 0) k = true -> k = 2.
Proof.
  destruct b; [|rewrite Z.bits_0; discriminate].
  change (Z.lor 0 FINALIZABLE) with (2 ^ 2).
  destruct (Z.ltb_spec k 0) as [Hk|Hk]; [rewrite Z.testbit_neg_r by lia; discriminate|].
  rewrite Z.pow2_bits_eqb by lia. intros H. apply Z.eqb_eq in H. lia.
Qed.

Lemma component_flag_bits c k :
  Z.testbit (component_flag c) k = true -> k = 3 \/ k = 4.
Proof.
  unfold component_flag.
  destruct (Z.ltb_spec k 0) as [Hk|Hk]; [rewrite Z.testbit_neg_r by lia; discriminate|].
  destruct (IsDescriptor c).
  - change INIT_ZERO with (2 ^ 3). rewrite Z.pow2_bits_eqb by lia.
    intros H. apply Z.eqb_eq in H. lia.
  - destruct (needs_component_init c); [|rewrite Z.bits_0; discriminate].
    change INIT_COMPONENT with (2 ^ 4). rewrite Z.pow2_bits_eqb by lia.
    intros H. apply Z.eqb_eq in H. lia.
Qed.

(** X12: the constructor sets no flag other than FINALIZABLE, INIT_ZERO and
    INIT_COMPONENT; a freshly constructed type is neither SEQUENCE nor
    BIND(C). *)
Theorem ctor_flag_bits n kps lps tp ca tbp init sz :
  let t := DerivedType_ctor n kps lps tp ca tbp init sz in
  (forall k, Z.testbit (flags_ t) k = true -> k = 2 \/ k = 3 \/ k = 4) /\
  IsSequence t = false /\ IsBindC t = false.
Proof.
  intros t.
  assert (Hbits : forall k, Z.testbit (flags_ t) k = true -> k = 2 \/ k = 3 \/ k = 4).
  { intros k. subst t. rewrite ctor_flags. cbv zeta. rewrite scan_procedures_flags.
    destruct (negb (isSome init) && _).
    - rewrite scan_components_testbit. intros H. apply orb_true_iff in H.
      destruct H as [H | H].
      + left. exact (testbit_FINALIZABLE_or_0 _ k H).
      + right. apply existsb_exists in H. destruct H as (c & _ & H).
        exact (component_flag_bits c k H).
    - intros H. left. exact (testbit_FINALIZABLE_or_0 _ k H). }
  split; [exact Hbits|]. unfold IsSequence, IsBindC. rewrite land_1, land_2.
  split.
  - destruct (Z.testbit (flags_ t) 0) eqn:E; [|reflexivity].
    destruct (Hbits 0 E) as [H | [H | H]]; discriminate.
  - destruct (Z.testbit (flags_ t) 1) eqn:E; [|reflexivity].
    destruct (Hbits 1 E) as [H | [H | H]]; discriminate.
Qed.

(** The three ways a construction can go: a flat image, a last procedure
    flagged initializer, or neither; only in the last case does the second
    loop run. *)
Lemma ctor_cases n kps lps tp ca tbp init sz :
  let t := DerivedType_ctor n kps lps tp ca tbp init sz in
  (Z.testbit (flags_ t) 3 = false /\ Z.testbit (flags_ t) 4 = false /\
   (isSome init = true \/
    (0 <= initTBP_ t /\ Exists (fun p => is_initializer p = true) tbp)))
  \/
  (init = None /\ initTBP_ t = -1 /\
   Forall (fun p => is_initializer p = false) tbp /\
   Z.testbit (flags_ t) 3 = existsb IsDescriptor ca /\
   Z.testbit (flags_ t) 4 =
     existsb (fun c => negb (IsDescriptor c) && needs_component_init c) ca).
Proof.
  intros t. subst t.
  destruct (last_initializer_split tbp) as [Hall | (pre & p & post & -> & Hp & Hpost)].
  - destruct init as [image|].
    + left. destruct (ctor_skips_components n kps lps tp ca tbp (Some image) sz)
        as [H3 H4]; [left; reflexivity|]. auto.
    + right. destruct (ctor_init_bits n kps lps tp ca tbp sz Hall) as (Hi & H3 & H4).
      auto.
  - left.
    pose proof (scan_procedures_initializer 0 pre p post (-1, 0) Hp Hpost) as Hidx.
    destruct (ctor_skips_components n kps lps tp ca (pre ++ p :: post) init sz)
      as [H3 H4]; [right; rewrite Hidx; lia|].
    split; [exact H3|]. split; [exact H4|]. right.
    rewrite ctor_initTBP_last by assumption. split; [lia|].
    apply Exists_exists. exists p. split; [|exact Hp].
    apply in_or_app. right. left. reflexivity.
Qed.

Lemma no_initializer_not_exists (l : list TypeBoundProcedure) :
  Forall (fun p => is_initializer p = false) l ->
  ~ Exists (fun p => is_initializer p = true) l.
Proof.
  intros Hall Hex. apply Exists_exists in Hex. destruct Hex as (p & Hin & Hp).
  rewrite Forall_forall in Hall. rewrite (Hall p Hin) in Hp. discriminate.
Qed.

Lemma ctor_IsInitZero_iff n kps lps tp ca tbp init sz :
  IsInitZero (DerivedType_ctor n kps lps tp ca tbp init sz) = true <->
  init = None /\ Forall (fun p => is_initializer p = false) tbp /\
  exists c, In c ca /\ IsDescriptor c = true.
Proof.
  rewrite IsInitZero_bit.
  destruct (ctor_cases n kps lps tp ca tbp init sz)
    as [(H3 & _ & Hwhy) | (Hinit & _ & Hall & H3 & _)]; cbv zeta in *; rewrite H3.
  - split; [discriminate|]. intros (Hinit & Hall & _).
    destruct Hwhy as [Hsome | [_ Hex]].
    + rewrite Hinit in Hsome. discriminate.
    + exfalso. exact (no_initializer_not_exists tbp Hall Hex).
  - rewrite existsb_exists. tauto.
Qed.

(** X13: a constructed type is zero-initializable exactly when it was given no
    flat image, none of its procedures is flagged initializer, and at least
    one of its components is a descriptor. *)
Theorem IsInitZero_ctor n kps lps tp ca tbp init sz :
  IsInitZero (DerivedType_ctor n kps lps tp ca tbp init sz) = true <->
  init = None /\ Forall (fun p => is_initializer p = false) tbp /\
  exists c, In c ca /\ IsDescriptor c = true.
Proof. apply ctor_IsInitZero_iff. Qed.

Lemma ctor_IsInitializable_iff n kps lps tp ca tbp init sz :
  IsInitializable (DerivedType_ctor n kps lps tp ca tbp init sz) = true <->
  init <> None \/
  Exists (fun p => is_initializer p = true) tbp \/
  exists c, In c ca /\ (IsDescriptor c = true \/ needs_component_init c = true).
Proof.
  rewrite IsInitializable_bits.
  destruct (ctor_fields n kps lps tp ca tbp init sz) as (_ & _ & Hinit & _ & _).
  cbv zeta in Hinit. rewrite Hinit.
  destruct (ctor_cases n kps lps tp ca tbp init sz)
    as [(H3 & H4 & Hwhy) | (Hnone & Hi & Hall & H3 & H4)]; cbv zeta in *.
  - rewrite H3, H4, orb_false_r. destruct Hwhy as [Hsome | [Hi Hex]].
    + rewrite Hsome. split; [|reflexivity]. intros _. left.
      destruct init; [discriminate|discriminate].
    + split; [intros _; right; left; exact Hex|]. intros _.
      apply orb_true_iff. right. apply Z.leb_le. exact Hi.
  - rewrite H3, H4, Hi, Hnone. cbn [isSome orb]. change (0 <=? -1) with false.
    cbn [orb]. rewrite orb_true_iff, !existsb_exists. split.
    + intros [(c & Hc & Hd) | (c & Hc & Hn)]; right; right; exists c.
      * auto.
      * apply andb_true_iff in Hn. destruct Hn as [_ Hn]. auto.
    + intros [Hne | [Hex | (c & Hc & [Hd | Hn])]].
      * congruence.
      * exfalso. exact (no_initializer_not_exists tbp Hall Hex).
      * left. exists c. auto.
      * destruct (IsDescriptor c) eqn:Hd; [left|right]; exists c; split; auto.
        rewrite Hd, Hn. reflexivity.
Qed.

(** X14: a constructed type is initializable exactly when it was given a flat
    image, or one of its procedures is flagged initializer, or one of its
    components is a descriptor or carries a nested type that is initializable
    and not zero-initializable. *)
Theorem IsInitializable_ctor n kps lps tp ca tbp init sz :
  IsInitializable (DerivedType_ctor n kps lps tp ca tbp init sz) = true <->
  init <> None \/
  Exists (fun p => is_initializer p = true) tbp \/
  exists c, In c ca /\ (IsDescriptor c = true \/ needs_component_init c = true).
Proof. apply ctor_IsInitializable_iff. Qed.

Section Wrapping.
Context {rt : Runtime}.

(** X15: zero-initializability is not inherited through a component: a type
    constructed without flat image and initializer procedure, all of whose
    components are non-descriptor components of zero-initializable nested
    types, is reported as not initializable and its Initialize performs no
    action -- no zero-fill reaches the nested types -- although each of
    these nested types is initializable on its own. *)
Theorem zero_init_not_inherited n kps lps tp ca tbp sz instance :
  Forall (fun p => is_initializer p = false) tbp ->
  (forall c, In c ca ->
     IsDescriptor c = false /\
     exists ty, nestedType c = Some ty /\ IsInitZero ty = true) ->
  let t := DerivedType_ctor n kps lps tp ca tbp None sz in
  IsInitializable t = false /\ IsInitZero t = false /\
  meq (Initialize t instance) (ret tt) /\
  (forall c ty, In c ca -> nestedType c = Some ty -> IsInitializable ty = true).
Proof.
  intros Hall Hca t.
  assert (Hneeds : forall c, In c ca -> needs_component_init c = false).
  { intros c Hc. destruct (Hca c Hc) as (_ & ty & Hn & Hz).
    unfold needs_component_init. rewrite Hn, Hz. apply andb_false_r. }
  assert (Hni : IsInitializable t = false).
  { apply not_true_is_false. intros H. apply ctor_IsInitializable_iff in H.
    destruct H as [H | [H | (c & Hc & [Hd | Hn])]].
    - congruence.
    - exact (no_initializer_not_exists tbp Hall H).
    - destruct (Hca c Hc) as (Hd' & _). congruence.
    - rewrite (Hneeds c Hc) in Hn. discriminate. }
  split; [exact Hni|]. split; [|split].
  - apply not_true_is_false. intros H. apply ctor_IsInitZero_iff in H.
    destruct H as (_ & _ & c & Hc & Hd). destruct (Hca c Hc) as (Hd' & _). congruence.
  - apply Initialize_not_initializable. exact Hni.
  - intros c ty Hc Hn. destruct (Hca c Hc) as (_ & ty' & Hn' & Hz).
    assert (ty' = ty) by congruence. subst ty'.
    rewrite IsInitializable_bits. rewrite IsInitZero_bit in Hz. rewrite Hz.
    rewrite orb_true_r. reflexivity.
Qed.

End Wrapping.

(* ================================================================== *)
(** ** Type parameters *)

Lemma ctor_parameters n kps lps tp ca tbp init sz :
  let t := DerivedType_ctor n kps lps tp ca tbp init sz in
  kindParameters t = kps /\ lenParameters t = lps /\ typeParameter_ t = tp.
Proof.
  unfold DerivedType_ctor.
  destruct (scan_procedures 0 tbp (-1, 0)); cbn. auto.
Qed.

Lemma element_app_l {A} (l1 l2 : list A) i :
  i < Z.of_nat (List.length l1) -> element (l1 ++ l2) i = element l1 i.
Proof.
  intros H. unfold element. destruct (Z.ltb_spec i 0); [reflexivity|].
  apply nth_error_app1. lia.
Qed.

Lemma element_app_r {A} (l1 l2 : list A) j :
  0 <= j -> element (l1 ++ l2) (Z.of_nat (List.length l1) + j) = element l2 j.
Proof.
  intros H. unfold element.
  destruct (Z.ltb_spec (Z.of_nat (List.length l1) + j) 0); [lia|].
  destruct (Z.ltb_spec j 0); [lia|].
  rewrite nth_error_app2 by lia. f_equal. lia.
Qed.

(** X17: with the KIND parameters first in the parameter array, as the
    constructor is given them, kindTypeParameter(i) is the i-th KIND parameter
    for every i below their count and lenTypeParameter(j) is the j-th LEN
    parameter for every j >= 0, past the last LEN parameter included. *)
Theorem type_parameter_accessors n kinds lens lps ca tbp init sz :
  let t := DerivedType_ctor n (Z.of_nat (List.length kinds)) lps (kinds ++ lens)
                            ca tbp init sz in
  kindParameters t = Z.of_nat (List.length kinds) /\
  (forall i, i < Z.of_nat (List.length kinds) ->
             kindTypeParameter t i = element kinds i) /\
  (forall j, 0 <= j -> lenTypeParameter t j = element lens j).
Proof.
  intros t.
  destruct (ctor_parameters n (Z.of_nat (List.length kinds)) lps (kinds ++ lens)
                            ca tbp init sz) as (Hk & _ & Htp).
  fold t in Hk, Htp. unfold kindParameters in Hk.
  split; [exact Hk|]. unfold kindTypeParameter, lenTypeParameter.
  rewrite Htp, Hk. split.
  - intros i Hi. apply element_app_l. exact Hi.
  - intros j Hj. apply element_app_r. exact Hj.
Qed.

(* ================================================================== *)
(** ** Component-wise initialization and destruction *)

Section ComponentWise.
Context {rt : Runtime}.

(** X18: a type constructed without flat image and initializer procedure, with
    no descriptor component and at least one component whose nested type is
    initializable and not zero-initializable, is initialized by the
    per-component initialization alone: no zero-fill, and every component
    that names a nested type has that type's Initialize run at
    instance + offset, in declaration order. *)
Theorem Initialize_components_only n kps lps tp ca tbp sz instance :
  Forall (fun p => is_initializer p = false) tbp ->
  Forall (fun c => IsDescriptor c = false) ca ->
  (exists c, In c ca /\ needs_component_init c = true) ->
  meq (Initialize (DerivedType_ctor n kps lps tp ca tbp None sz) instance)
      (for_each (fun c => match nestedType c with
                          | Some ty => Initialize ty (instance + offset_ c)
                          | None => ret tt
                          end) ca).
Proof.
  intros Hall Hnd (c & Hc & Hn).
  destruct (ctor_fields n kps lps tp ca tbp None sz) as (Hca & _ & Hinit & _ & _).
  destruct (ctor_init_bits n kps lps tp ca tbp sz Hall) as (Hi & H3 & H4).
  cbv zeta in Hca, Hinit, Hi, H3, H4.
  eapply meq_trans; [apply Initialize_unfold|].
  rewrite Hinit, Hi. change (0 <=? -1) with false. cbv iota.
  unfold fill_and_components, initialize_components.
  rewrite IsInitZero_bit, land_16, H3, H4, Hca.
  replace (existsb IsDescriptor ca) with false.
  - replace (existsb (fun c => negb (IsDescriptor c) && needs_component_init c) ca)
      with true; [intros s; reflexivity|].
    symmetry. apply existsb_exists. exists c. split; [exact Hc|].
    rewrite Forall_forall in Hnd. rewrite (Hnd c Hc), Hn. reflexivity.
  - symmetry. apply not_true_is_false. intros E.
    apply existsb_exists in E. destruct E as (c' & Hc' & Hd).
    rewrite Forall_forall in Hnd. rewrite (Hnd c' Hc') in Hd. discriminate.
Qed.

Lemma destroy_flat_components instance finalize l :
  (forall c, In c l -> IsDescriptor c = false -> nestedType c = None) ->
  forall s, exists s',
    for_each (destroy_non_parent instance finalize) l s = (Returned tt, s') /\
    trace s' = trace s ++
               map (fun c => EvDeallocate (instance + offset_ c) finalize)
                   (filter IsDescriptor l).
Proof.
  induction l as [|c l IH]; intros H s.
  - exists s. split; [reflexivity|]. symmetry. apply app_nil_r.
  - cbn [for_each filter]. unfold bind.
    assert (Hl : forall c', In c' l -> IsDescriptor c' = false -> nestedType c' = None)
      by (intros c' Hc'; apply H; right; exact Hc').
    unfold destroy_non_parent at 1. destruct (IsDescriptor c) eqn:Hd.
    + cbn [Deallocate].
      destruct (IH Hl (mkState (descriptor_Deallocate (Locate c instance) finalize (mem s))
                               (trace s ++ [EvDeallocate (Locate c instance) finalize])))
        as (s' & Hs' & Ht).
      exists s'. unfold Deallocate. rewrite Hs'. split; [reflexivity|].
      rewrite Ht. cbn [trace map]. rewrite <- app_assoc. reflexivity.
    + rewrite (H c (or_introl eq_refl) Hd).
      destruct (IH Hl s) as (s' & Hs' & Ht).
      exists s'. cbn [ret]. rewrite Hs'. auto.
Qed.

(** X19: on a type whose non-parent components name no nested derived type,
    DestroyNonParentComponents returns, and what it does is exactly one
    deallocation per descriptor component that is not flagged parent, at
    instance + offset with the caller's finalize flag, in declaration order;
    a component flagged parent is skipped even if it is a descriptor. *)
Theorem DestroyNonParentComponents_flat t instance finalize s :
  (forall c, In c (component_ t) ->
             IsParent c = false -> IsDescriptor c = false -> nestedType c = None) ->
  exists s',
    DestroyNonParentComponents t instance finalize s = (Returned tt, s') /\
    trace s' = trace s ++
               map (fun c => EvDeallocate (instance + offset_ c) finalize)
                   (filter IsDescriptor (non_parent_components t)).
Proof.
  intros H. rewrite components_loop.
  apply destroy_flat_components.
  intros c Hc Hd. apply filter_In in Hc. destruct Hc as [Hc Hp].
  apply negb_true_iff in Hp. exact (H c Hc Hp Hd).
Qed.

End ComponentWise.

(* ================================================================== *)
(** ** The further properties on concrete tables *)

Import MoreExamples.

Lemma assumed_rank_only_bit0 :
  forall p, In p (typeBoundProcedure_ assumed_rank_only) ->
            Z.testbit (finalRank p) 0 = false.
Proof.
  intros p [<- | [<- | []]]; reflexivity.
Defined.

Lemma DestroyScalarInstance_ignores_assumed_rank_witness :
  (forall p, In p (typeBoundProcedure_ assumed_rank_only) ->
             Z.testbit (finalRank p) 0 = false) /\
  meq (DestroyScalarInstance (rt:=quiet) assumed_rank_only 100 true)
      (DestroyNonParentComponents assumed_rank_only 100 true ;;
       destroy_parent assumed_rank_only 100 true) /\
  (forall p, In p (typeBoundProcedure_ assumed_rank_only) ->
             is_assumed_rank_final p = true -> IsFinalForRank p 0 = true).
Proof.
  split; [exact assumed_rank_only_bit0|].
  apply (DestroyScalarInstance_ignores_assumed_rank (rt:=quiet)
           assumed_rank_only 100 true).
  exact assumed_rank_only_bit0.
Defined.

(** The assumed-rank finalizer is final for rank 0 and the type is
    finalizable, yet destruction only deallocates the component. *)
Example assumed_rank_only_trace :
  IsFinalizable assumed_rank_only = true /\
  IsFinalForRank final_assumed_rank 0 = true /\
  outcome (DestroyScalarInstance (rt:=quiet) assumed_rank_only 100 true)
  = (Returned tt, [EvDeallocate 100 true]).
Proof. repeat split. Qed.

Lemma not_initializable_no_action_witness :
  IsInitializable wrapper = false /\
  meq (Initialize (rt:=quiet) wrapper 100) (ret tt).
Proof.
  split; [reflexivity|].
  apply (not_initializable_no_action (rt:=quiet) wrapper 100). reflexivity.
Defined.

Lemma wrapper_components :
  forall c, In c [nested "h1" holder 0; nested "h2" holder 4] ->
    IsDescriptor c = false /\
    exists ty, nestedType c = Some ty /\ IsInitZero ty = true.
Proof.
  intros c [<- | [<- | []]]; (split; [reflexivity|]); exists holder;
    split; reflexivity.
Defined.

Lemma zero_init_not_inherited_witness :
  Forall (fun p => is_initializer p = false) [final_sub "final" 700] /\
  (forall c, In c [nested "h1" holder 0; nested "h2" holder 4] ->
     IsDescriptor c = false /\
     exists ty, nestedType c = Some ty /\ IsInitZero ty = true) /\
  IsInitializable wrapper = false /\ IsInitZero wrapper = false /\
  meq (Initialize (rt:=quiet) wrapper 100) (ret tt) /\
  (forall c ty, In c [nested "h1" holder 0; nested "h2" holder 4] ->
                nestedType c = Some ty -> IsInitializable ty = true).
Proof.
  assert (Hno : Forall (fun p => is_initializer p = false) [final_sub "final" 700])
    by (repeat constructor).
  split; [exact Hno|]. split; [exact wrapper_components|].
  apply (zero_init_not_inherited (rt:=quiet) "wrapper" 0 0 []
           [nested "h1" holder 0; nested "h2" holder 4] [final_sub "final" 700]
           8 100 Hno wrapper_components).
Defined.

(** Initializing [holder] on its own zero-fills it; through [wrapper] nothing
    is written. *)
Example wrapper_leaves_holder_alone :
  outcome (Initialize (rt:=quiet) holder 100)
    = (Returned tt, [EvMemset 100 x00 4]) /\
  outcome (Initialize (rt:=quiet) wrapper 100) = (Returned tt, []).
Proof. split; reflexivity. Qed.

Lemma Initialize_components_only_witness :
  Forall (fun p => is_initializer p = false) [final_sub "final" 700] /\
  Forall (fun c => IsDescriptor c = false) [nested "p" pair 0; nested "h" holder 4] /\
  (exists c, In c [nested "p" pair 0; nested "h" holder 4] /\
             needs_component_init c = true) /\
  meq (Initialize (rt:=quiet) framed 100)
      (for_each (fun c => match nestedType c with
                          | Some ty => Initialize ty (100 + offset_ c)
                          | None => ret tt
                          end) [nested "p" pair 0; nested "h" holder 4]).
Proof.
  assert (Hno : Forall (fun p => is_initializer p = false) [final_sub "final" 700])
    by (repeat constructor).
  assert (Hnd : Forall (fun c => IsDescriptor c = false)
                       [nested "p" pair 0; nested "h" holder 4])
    by (repeat constructor).
  assert (Hex : exists c, In c [nested "p" pair 0; nested "h" holder 4] /\
                          needs_component_init c = true)
    by (exists (nested "p" pair 0); split; [left; reflexivity|reflexivity]).
  split; [exact Hno|]. split; [exact Hnd|]. split; [exact Hex|].
  apply (Initialize_components_only (rt:=quiet) "framed" 0 0 []
           [nested "p" pair 0; nested "h" holder 4] [final_sub "final" 700]
           8 100 Hno Hnd Hex).
Defined.

(** Both nested types are initialized, the zero-initializable one too. *)
Example framed_trace :
  outcome (Initialize (rt:=quiet) framed 100)
  = (Returned tt, [EvMemcpy 100 [x01; x02] 2; EvMemset 104 x00 4]).
Proof. reflexivity. Qed.

Lemma flat_record_components :
  forall c, In c (component_ flat_record) ->
    IsParent c = false -> IsDescriptor c = false -> nestedType c = None.
Proof.
  intros c [<- | [<- | [<- | [<- | []]]]] _ _; reflexivity.
Defined.

Lemma DestroyNonParentComponents_flat_witness :
  (forall c, In c (component_ flat_record) ->
     IsParent c = false -> IsDescriptor c = false -> nestedType c = None) /\
  exists s',
    DestroyNonParentComponents (rt:=quiet) flat_record 100 false s0
    = (Returned tt, s') /\
    trace s' = trace s0 ++
               map (fun c => EvDeallocate (100 + offset_ c) false)
                   (filter IsDescriptor (non_parent_components flat_record)).
Proof.
  split; [exact flat_record_components|].
  apply (DestroyNonParentComponents_flat (rt:=quiet) flat_record 100 false s0).
  exact flat_record_components.
Defined.

(** The component flagged parent and descriptor at once is skipped. *)
Example flat_record_trace :
  outcome (DestroyNonParentComponents (rt:=quiet) flat_record 100 false)
  = (Returned tt, [EvDeallocate 100 false; EvDeallocate 156 false]).
Proof. reflexivity. Qed.

(* ================================================================== *)
(** ** Destruction along the whole inheritance chain *)

Lemma last_cons {A} (x : A) l d : last (x :: l) d = last l x.
Proof.
  revert x d. induction l as [|y l IH]; intros x d; [reflexivity|].
  change (last (x :: y :: l) d) with (last (y :: l) d).
  rewrite (IH y d), (IH y x). reflexivity.
Qed.

Lemma chain_last_step t :
  chain_last t =
  if IsExtension t then
    match parentType t with
    | Some p => chain_last p
    | None => t
    end
  else t.
Proof.
  unfold chain_last. rewrite (ancestors_step t).
  destruct (IsExtension t); [|reflexivity].
  destruct (parentType t) as [p|]; [apply last_cons|reflexivity].
Qed.

Lemma chain_end_step t :
  chain_end t =
  if IsExtension t then
    match parentType t with
    | Some p => chain_end p
    | None => CheckFailed (failed_parent_check t)
    end
  else ret tt.
Proof.
  unfold chain_end. rewrite (chain_last_step t).
  destruct (IsExtension t) eqn:Hext; [|rewrite Hext; reflexivity].
  destruct (parentType t) as [p|]; [reflexivity|rewrite Hext; reflexivity].
Qed.

(** A chain that ends at a base type is a well-formed inheritance chain. *)
Lemma chain_reaches_base t :
  IsExtension (chain_last t) = false -> inheritance_chain t (t :: ancestors t).
Proof.
  remember (height t) as h eqn:Hh. revert t Hh.
  induction h as [h IH] using lt_wf_ind. intros t Hh.
  rewrite (chain_last_step t), (ancestors_step t).
  destruct (IsExtension t) eqn:Hext.
  - destruct (parentType t) as [p|] eqn:Hp; intros H.
    + apply (chain_extends t p); [exact Hext|exact Hp|].
      pose proof (height_parent t p Hext Hp) as Hlt.
      apply (IH (height p)); [lia|reflexivity|exact H].
    + congruence.
  - intros _. apply chain_base. exact Hext.
Qed.

Lemma for_each_runs {A} (f : A -> M unit) l s s' :
  for_each f l s = (Returned tt, s') ->
  runs_each (fun x => returns_to (f x)) l s s'.
Proof.
  revert s. induction l as [|x l IH]; intros s H.
  - cbn in H. injection H as <-. constructor.
  - cbn [for_each] in H. apply bind_returned in H. destruct H as (s1 & Hx & Hl).
    apply (runs_cons _ x l s s1 s'); [exact Hx|apply IH; exact Hl].
Qed.

Lemma runs_for_each {A} (f : A -> M unit) l s s' :
  runs_each (fun x => returns_to (f x)) l s s' ->
  for_each f l s = (Returned tt, s').
Proof.
  induction 1 as [s | x l s s1 s' Hx _ IH]; [reflexivity|].
  cbn [for_each]. unfold bind. unfold returns_to in Hx. rewrite Hx. exact IH.
Qed.

Lemma runs_each_impl {A} (P Q : A -> State -> State -> Prop) l s s' :
  (forall x a b, P x a b -> Q x a b) -> runs_each P l s s' -> runs_each Q l s s'.
Proof.
  intros HPQ. induction 1 as [s | x l s s1 s' Hx _ IH]; [constructor|].
  apply (runs_cons _ x l s s1 s'); [apply HPQ; exact Hx|exact IH].
Qed.

Section ChainRuns.
Context {rt : Runtime}.

Lemma level_completes_iff instance finalize u s s' :
  destroy_level instance finalize u s = (Returned tt, s') <->
  level_completes instance finalize u s s'.
Proof.
  unfold destroy_level, level_completes. split.
  - intros H. apply bind_returned in H. destruct H as (mid & Hf & Hc).
    exists mid. split; [exact Hf|]. apply for_each_runs. exact Hc.
  - intros (mid & Hf & Hc). unfold bind. unfold returns_to in Hf. rewrite Hf.
    apply runs_for_each. exact Hc.
Qed.

(** Whatever the tables are, [DestroyScalarInstance] goes down the chain
    [t :: ancestors t] level by level and then ends as the chain ends. *)
Lemma DestroyScalarInstance_lineage t :
  forall instance finalize,
    meq (DestroyScalarInstance t instance finalize)
        (for_each (destroy_level instance finalize) (t :: ancestors t) ;;
         chain_end t).
Proof.
  remember (height t) as h eqn:Hh. revert t Hh.
  induction h as [h IH] using lt_wf_ind. intros t Hh instance finalize.
  eapply meq_trans; [apply DestroyScalarInstance_level|].
  rewrite (ancestors_step t), (chain_end_step t). unfold destroy_parent.
  destruct (IsExtension t) eqn:Hext.
  - destruct (parentType t) as [p|] eqn:Hp.
    + cbn [for_each].
      eapply meq_trans; [|apply meq_sym, bind_assoc].
      apply bind_meq; [apply meq_refl|intros _].
      pose proof (height_parent t p Hext Hp) as Hlt.
      apply (IH (height p)); [lia|reflexivity].
    + cbn [for_each].
      eapply meq_trans; [|apply meq_sym, bind_assoc].
      apply bind_meq; [apply meq_refl|intros _].
      apply meq_sym, bind_ret_l.
  - cbn [for_each]. apply meq_sym, bind_ret_r.
Qed.

(** C2 (amended): for every DerivedType and instance,
    DestroyScalarInstance(instance, finalize) performs, in this order and
    until a fatal diagnostic ends the run: (1) if finalize is true and the
    type is finalizable, in table order, exactly the procedures flagged
    elemental whose bitmask bit 0 is set and whose host entry point is not
    null; (2) the destruction of the non-parent components in declaration
    order, each one once; (3) if the type is an extension, the parent type's
    DestroyScalarInstance with the same finalize flag when component 0 names
    a parent type, and the fatal diagnostic when it does not.  So the levels
    of [t :: ancestors t] are torn down from the most-derived one on, and a
    run returns exactly when the chain ends at a base type and every level,
    down to the base, has run its finalizers and destroyed each of its
    non-parent components exactly once. *)
Theorem DestroyScalarInstance_order t instance finalize :
  meq (DestroyScalarInstance t instance finalize)
      (run_scalar_finalizers t instance finalize ;;
       DestroyNonParentComponents t instance finalize ;;
       destroy_parent t instance finalize) /\
  meq (DestroyNonParentComponents t instance finalize)
      (for_each (destroy_non_parent instance finalize) (non_parent_components t)) /\
  meq (DestroyScalarInstance t instance finalize)
      (for_each (destroy_level instance finalize) (t :: ancestors t) ;;
       chain_end t) /\
  (forall s s',
      DestroyScalarInstance t instance finalize s = (Returned tt, s') <->
      inheritance_chain t (t :: ancestors t) /\
      runs_each (level_completes instance finalize) (t :: ancestors t) s s').
Proof.
  split; [|split; [|split]].
  - rewrite DestroyScalarInstance_unfold.
    apply bind_meq; [apply finalizers_loop|intros _; apply meq_refl].
  - apply components_loop.
  - apply DestroyScalarInstance_lineage.
  - intros s s'. split.
    + intros H. rewrite DestroyScalarInstance_lineage in H.
      apply bind_returned in H. destruct H as (s1 & Hl & He).
      unfold chain_end in He.
      destruct (IsExtension (chain_last t)) eqn:E; [discriminate|].
      injection He as <-. split; [apply chain_reaches_base; exact E|].
      apply for_each_runs in Hl.
      apply (runs_each_impl _ _ _ _ _ (fun u a b => proj1 (level_completes_iff
               instance finalize u a b)) Hl).
    + intros (Hc & Hr).
      rewrite (DestroyScalarInstance_chain t _ instance finalize Hc).
      apply runs_for_each.
      apply (runs_each_impl _ _ _ _ _ (fun u a b => proj2 (level_completes_iff
               instance finalize u a b)) Hr).
Qed.

End ChainRuns.

Lemma DestroyScalarInstance_order_witness :
  DestroyScalarInstance (rt:=quiet) grandchild 100 true s0
  = (Returned tt, snd (DestroyScalarInstance (rt:=quiet) grandchild 100 true s0)) /\
  inheritance_chain grandchild (grandchild :: ancestors grandchild) /\
  runs_each (level_completes (rt:=quiet) 100 true) (grandchild :: ancestors grandchild)
            s0 (snd (DestroyScalarInstance (rt:=quiet) grandchild 100 true s0)).
Proof.
  assert (H : DestroyScalarInstance (rt:=quiet) grandchild 100 true s0
              = (Returned tt,
                 snd (DestroyScalarInstance (rt:=quiet) grandchild 100 true s0)))
    by reflexivity.
  split; [exact H|].
  apply (proj1 (proj2 (proj2 (proj2
           (DestroyScalarInstance_order (rt:=quiet) grandchild 100 true))) s0 _)).
  exact H.
Defined.

(** The chain of [child_of_orphan] ends at an extension without usable
    parent: its own level is torn down, [orphan]'s level is entered, and the
    run ends in the fatal diagnostic. *)
Example child_of_orphan_trace :
  map name_ (child_of_orphan :: ancestors child_of_orphan)
    = ["child_of_orphan"%string; "orphan"%string] /\
  IsExtension (chain_last child_of_orphan) = true /\
  outcome (DestroyScalarInstance (rt:=quiet) child_of_orphan 100 true)
    = (Crashed "staticParentDescriptor",
       [EvHostCall 2500 100; EvDeallocate 108 true]).
Proof. repeat split. Qed.

(** C2, as worded, fails in each of its three steps.  (1) [device_only] is
    finalizable and its procedure is flagged elemental with bitmask bit 0
    set, but it has no host entry point and is not invoked.  (2)
    [outer_with_orphan] has the non-parent component "z", which is never
    destroyed, because the destruction of the component before it ends in
    the fatal diagnostic.  (3) The same type is an extension of [base], and
    [orphan] is an extension too, yet neither run enters a parent type. *)
Lemma DestroyScalarInstance_as_worded_fails :
  (IsFinalizable device_only = true /\
   outcome (DestroyScalarInstance (rt:=quiet) device_only 100 true)
     = (Returned tt, []) /\
   outcome (destroy_as_worded (rt:=quiet) device_only 100 true)
     = (Returned tt, [EvHostCall 0 100]) /\
   ~ meq (DestroyScalarInstance (rt:=quiet) device_only 100 true)
         (destroy_as_worded (rt:=quiet) device_only 100 true)) /\
  (In (allocatable "z" 32) (non_parent_components outer_with_orphan) /\
   IsExtension outer_with_orphan = true /\
   parentType outer_with_orphan = Some base /\
   outcome (DestroyScalarInstance (rt:=quiet) outer_with_orphan 100 true)
     = (Crashed "staticParentDescriptor", [EvHostCall 4000 100]) /\
   outcome (DestroyScalarInstance (rt:=quiet) base 100 true)
     = (Returned tt, [EvHostCall 3000 100; EvDeallocate 100 true])) /\
  (IsExtension orphan = true /\ parentType orphan = None /\
   outcome (DestroyScalarInstance (rt:=quiet) orphan 100 true)
     = (Crashed "staticParentDescriptor", [])).
Proof.
  split; [|split].
  - split; [reflexivity|]. split; [reflexivity|]. split; [reflexivity|].
    intros H. specialize (H s0).
    apply (f_equal (fun r => trace (snd r))) in H. vm_compute in H. discriminate.
  - split; [right; left; reflexivity|]. repeat split.
  - repeat split.
Qed.
